(** * TimeUsageTracker (src/tabpfn/model/time_tracker.py)

    A shallow embedding of the segment timer of the TabPFN model package and
    the properties its specification states about it.

    Conventions of the embedding.
    - A clock reading ([time.time()]) and a duration are exact integers
      (type [Z], a number of clock ticks): Python's floats are abstracted to
      exact arithmetic, so [sum] is a left fold of [+] starting at [0].
    - Python dictionaries with string keys are [gmap string _].
    - [threading.Timer] objects live in a store (a list indexed by allocation
      order); the dictionary [_timers] holds references into that store, so
      that [cancel()] on a reference is seen by the timer thread.
    - Methods are computations in a state-and-exception monad over the
      [World]: the tracker object, the timer store, the wall clock and the
      stream of warnings. An exception carries the world at the point of the
      [raise]. *)

From stdpp Require Import base gmap strings list.
From Stdlib Require Import ZArith Lia.

Open Scope Z_scope.

(** ** Data *)

(** The three attributes set by [__init__]. *)
Record TimeUsageTracker := mkTracker {
  active_segments : gmap string Z;
  completed_segments : list (string * Z);
  _timers : gmap string nat
}.

(** Program point of the thread behind a [threading.Timer]:
    [run()] is [finished.wait(interval)], then the test of [finished], then the
    call of the function, and the function of this module is a guard followed
    by a call of [warnings.warn]. *)
Inductive timer_pc :=
| NotStarted   (* object created, [start()] not called yet *)
| Waiting      (* inside [finished.wait(interval)] *)
| Checked      (* [finished] seen unset, the callback is entered *)
| Passed       (* the callback's guard was true, [warnings.warn] is next *)
| Done.        (* [run()] has returned *)

(** A [threading.Timer(interval, self._warn_if_over_limit, args=(label, start_time))]. *)
Record Timer := mkTimer {
  interval : Z;
  args : string * Z;
  daemon : bool;
  finished : bool;
  pc : timer_pc
}.

(** The thread that executes a statement. *)
Inductive thread :=
| Caller
| TimerThread (tid : nat).

(** One call of [warnings.warn]: its message and the thread that made it. *)
Record Warning := mkWarning {
  warned_in : thread;
  message : string
}.

Record World := mkWorld {
  self : TimeUsageTracker;
  timer_store : list Timer;
  clock : Z;
  running : thread;
  warnings_log : list Warning
}.

Inductive exn :=
| RuntimeError (msg : string)
| KeyError (key : string).

#[global] Instance timer_pc_eq_dec : EqDecision timer_pc.
Proof. solve_decision. Defined.
#[global] Instance thread_eq_dec : EqDecision thread.
Proof. solve_decision. Defined.
#[global] Instance exn_eq_dec : EqDecision exn.
Proof. solve_decision. Defined.

(** ** The monad *)

Inductive outcome (A : Type) :=
| Returns (a : A) (w : World)
| Raises (e : exn) (w : World).
Arguments Returns {A} a w.
Arguments Raises {A} e w.

Definition M (A : Type) : Type := World -> outcome A.

Definition ret {A} (a : A) : M A := fun w => Returns a w.
Definition bind {A B} (m : M A) (f : A -> M B) : M B := fun w =>
  match m w with
  | Returns a w' => f a w'
  | Raises e w' => Raises e w'
  end.

Notation "'let!' x ':=' m 'in' k" := (bind m (fun x => k))
  (at level 10, x name, m at level 100, k at level 200).
Notation "m >> k" := (bind m (fun _ => k))
  (at level 100, k at level 200, right associativity).

Definition raise {A} (e : exn) : M A := fun w => Raises e w.
Definition get_self : M TimeUsageTracker := fun w => Returns (self w) w.
Definition put_self (t : TimeUsageTracker) : M unit := fun w =>
  Returns () (mkWorld t (timer_store w) (clock w) (running w) (warnings_log w)).

(** The world reached by an outcome, however it ended. *)
Definition world_of {A} (o : outcome A) : World :=
  match o with Returns _ w => w | Raises _ w => w end.

(** ** The environment: clock, warnings, timers *)

(** [time.time()] *)
Definition time_time : M Z := fun w => Returns (clock w) w.

(** [warnings.warn(msg, ...)]: the call is recorded; it is never an error. *)
Definition warnings_warn (msg : string) : M unit := fun w =>
  Returns () (mkWorld (self w) (timer_store w) (clock w) (running w)
                      (warnings_log w ++ [mkWarning (running w) msg])).

(** Modelled from the spec: the constant [TIME_WARNING_CPU] of
    [tabpfn.constants], which is imported by the module and not part of it;
    the threshold is ten minutes, in seconds. No property below depends on
    its value. *)
Definition TIME_WARNING_CPU : Z := 600.

Definition put_timer_store (ts : list Timer) : M unit := fun w =>
  Returns () (mkWorld (self w) ts (clock w) (running w) (warnings_log w)).

(** [threading.Timer(interval, function, args=...)]: a fresh object. *)
Definition Timer_new (itv : Z) (a : string * Z) : M nat := fun w =>
  Returns (length (timer_store w))
    (mkWorld (self w) (timer_store w ++ [mkTimer itv a false false NotStarted])
             (clock w) (running w) (warnings_log w)).

Definition update_timer (f : Timer -> Timer) (r : nat) : M unit := fun w =>
  match timer_store w !! r with
  | Some t => put_timer_store (<[r := f t]> (timer_store w)) w
  | None => Returns () w
  end.

(** [timer.daemon = b] *)
Definition Timer_set_daemon (r : nat) (b : bool) : M unit :=
  update_timer (fun t => mkTimer (interval t) (args t) b (finished t) (pc t)) r.

(** [timer.start()]: the thread enters [finished.wait(interval)]. *)
Definition Timer_start (r : nat) : M unit :=
  update_timer (fun t => mkTimer (interval t) (args t) (daemon t) (finished t) Waiting) r.

(** [timer.cancel()] is [self.finished.set()]. *)
Definition Timer_cancel (r : nat) : M unit :=
  update_timer (fun t => mkTimer (interval t) (args t) (daemon t) true (pc t)) r.

(** ** Dictionary and list primitives used by the methods *)

(** [key in d] *)
Definition dict_contains {V} (d : gmap string V) (key : string) : bool :=
  bool_decide (is_Some (d !! key)).

(** [d[key]] *)
Definition dict_get {V} (d : gmap string V) (key : string) : M V :=
  match d !! key with
  | Some v => ret v
  | None => raise (KeyError key)
  end.

(** [sum(xs)] *)
Definition py_sum (xs : list Z) : Z := fold_left Z.add xs 0.

(** Field updates of the tracker object. *)
Definition set_active (m : gmap string Z) : M unit :=
  let! t := get_self in put_self (mkTracker m (completed_segments t) (_timers t)).
Definition set_completed (l : list (string * Z)) : M unit :=
  let! t := get_self in put_self (mkTracker (active_segments t) l (_timers t)).
Definition set_timers (m : gmap string nat) : M unit :=
  let! t := get_self in put_self (mkTracker (active_segments t) (completed_segments t) m).

(** ** The methods of [TimeUsageTracker] *)

(** [TimeUsageTracker()] *)
Definition init : TimeUsageTracker := mkTracker ∅ [] ∅.

Definition over_limit_message (label : string) : string :=
  label +:+ " is taking > 10 minutes to run. "
        +:+ "Use GPU for faster processing, or if unavailable, "
        +:+ "try tabpfn-client API https://github.com/PriorLabs/tabpfn-client".

(** The condition of [_warn_if_over_limit]:
    [label in self.active_segments and self.active_segments[label] == start_time] *)
Definition still_current (label : string) (start_time : Z) : M bool :=
  let! t := get_self in
  if dict_contains (active_segments t) label then
    let! v := dict_get (active_segments t) label in
    ret (bool_decide (v = start_time))
  else ret false.

Definition _warn_if_over_limit (label : string) (start_time : Z) : M unit :=
  let! b := still_current label start_time in
  if b then warnings_warn (over_limit_message label) else ret ().

Definition already_active_message (label : string) : string :=
  "Segment '" +:+ label +:+ "' is already active.".

(** The tail shared by [start] and [reset]: stamp the label and schedule its
    timer. *)
Definition stamp_and_schedule (label : string) : M unit :=
  let! start_time := time_time in
  let! t := get_self in
  set_active (<[label := start_time]> (active_segments t)) >>
  let! timer := Timer_new TIME_WARNING_CPU (label, start_time) in
  Timer_set_daemon timer true >>
  Timer_start timer >>
  let! t := get_self in
  set_timers (<[label := timer]> (_timers t)).

Definition start (label : string) : M unit :=
  let! t := get_self in
  if dict_contains (active_segments t) label then
    raise (RuntimeError (already_active_message label))
  else stamp_and_schedule label.

Definition not_active_message (label : string) : string :=
  "No active segment found with label '" +:+ label +:+ "'.".

(** [d.pop(key)] on [self.active_segments] *)
Definition pop_active (label : string) : M Z :=
  let! t := get_self in
  let! v := dict_get (active_segments t) label in
  set_active (delete label (active_segments t)) >>
  ret v.

(** [self._timers.pop(label)] *)
Definition pop_timer (label : string) : M nat :=
  let! t := get_self in
  let! r := dict_get (_timers t) label in
  set_timers (delete label (_timers t)) >>
  ret r.

Definition stop (label : string) : M unit :=
  let! t := get_self in
  if negb (dict_contains (active_segments t) label) then
    raise (RuntimeError (not_active_message label))
  else
    let! start_time := pop_active label in
    let! t := get_self in
    (if dict_contains (_timers t) label then
       let! timer := pop_timer label in Timer_cancel timer
     else ret ()) >>
    let! now := time_time in
    let! t := get_self in
    set_completed (completed_segments t ++ [(label, now - start_time)]).

Definition reset_message (label : string) : string :=
  "Resetting " +:+ label +:+ " time segment.".

Definition reset (label : string) : M unit :=
  let! t := get_self in
  if dict_contains (active_segments t) label then
    warnings_warn (reset_message label) >>
    (if dict_contains (_timers t) label then
       let! r := dict_get (_timers t) label in Timer_cancel r
     else ret ()) >>
    stamp_and_schedule label
  else ret ().

Definition total_time (labels : option (list string)) : M Z :=
  let! t := get_self in
  match labels with
  | None => ret (py_sum (map snd (completed_segments t)))
  | Some ls =>
      ret (py_sum (map snd
              (filter (fun r => bool_decide (r.1 ∈ ls)) (completed_segments t))))
  end.

(** ** The thread of a timer

    [threading.Timer.run] is
    [[
      self.finished.wait(self.interval)
      if not self.finished.is_set():
          self.function(label, start_time)
      self.finished.set()
    ]]
    No statement of the module takes a lock, so the thread is followed
    statement by statement: it wakes and tests [finished], it evaluates the
    guard of [_warn_if_over_limit], it calls [warnings.warn]. A step taken at
    another program point than its own does nothing. *)

(** The thread of timer [tid] moves to program point [p], the event
    [finished] being [fin]. *)
Definition set_pc (p : timer_pc) (fin : bool) (tid : nat) : M unit :=
  update_timer (fun t => mkTimer (interval t) (args t) (daemon t) fin p) tid.

(** [finished.wait(interval)] returns and [finished] is tested: a cancelled
    timer goes to the end of [run()], another one enters the callback. *)
Definition timer_wake (tid : nat) : M unit := fun w =>
  match timer_store w !! tid with
  | Some t =>
      match pc t with
      | Waiting => if finished t then set_pc Done true tid w
                   else set_pc Checked false tid w
      | _ => Returns () w
      end
  | None => Returns () w
  end.

(** The condition of [_warn_if_over_limit] is evaluated on the arguments
    given to the timer; when it is false the callback and [run()] return. *)
Definition timer_guard (tid : nat) : M unit := fun w =>
  match timer_store w !! tid with
  | Some t =>
      match pc t with
      | Checked =>
          (let! b := still_current (args t).1 (args t).2 in
           if b then set_pc Passed (finished t) tid else set_pc Done true tid) w
      | _ => Returns () w
      end
  | None => Returns () w
  end.

(** The call of [warnings.warn] of [_warn_if_over_limit], after which the
    callback and [run()] return. *)
Definition timer_emit (tid : nat) : M unit := fun w =>
  match timer_store w !! tid with
  | Some t =>
      match pc t with
      | Passed =>
          (warnings_warn (over_limit_message (args t).1) >> set_pc Done true tid) w
      | _ => Returns () w
      end
  | None => Returns () w
  end.

(** The whole of [run()] taken in one piece, with the callback as the source
    writes it. *)
Definition Timer_run (tid : nat) : M unit := fun w =>
  match timer_store w !! tid with
  | Some t =>
      match pc t with
      | Waiting =>
          ((if finished t then ret ()
            else _warn_if_over_limit (args t).1 (args t).2) >>
           set_pc Done true tid) w
      | _ => Returns () w
      end
  | None => Returns () w
  end.

(** ** Histories

    What happens to a tracker: calls of its public methods by the program,
    changes of the wall clock, and steps of the timer threads. A caller may
    catch the [RuntimeError] of a call and go on, so a history continues
    after a failed call, from the world the exception left. *)

Inductive op :=
| Start (label : string)
| Stop (label : string)
| Reset (label : string)
| TotalTime (labels : option (list string)).

Inductive event :=
| Call (o : op)
| Tick (t : Z)
| Wake (tid : nat)
| Guard (tid : nat)
| Emit (tid : nat).

#[global] Instance op_eq_dec : EqDecision op.
Proof. solve_decision. Defined.
#[global] Instance event_eq_dec : EqDecision event.
Proof. solve_decision. Defined.

Definition set_running (th : thread) : M unit := fun w =>
  Returns () (mkWorld (self w) (timer_store w) (clock w) th (warnings_log w)).

Definition set_clock (t : Z) : M unit := fun w =>
  Returns () (mkWorld (self w) (timer_store w) t (running w) (warnings_log w)).

Definition call (o : op) : M unit :=
  match o with
  | Start l => start l
  | Stop l => stop l
  | Reset l => reset l
  | TotalTime ls => total_time ls >> ret ()
  end.

Definition exec (e : event) : M unit :=
  match e with
  | Call o => set_running Caller >> call o
  | Tick t => set_clock t
  | Wake tid => set_running (TimerThread tid) >> timer_wake tid
  | Guard tid => set_running (TimerThread tid) >> timer_guard tid
  | Emit tid => set_running (TimerThread tid) >> timer_emit tid
  end.

Definition step (w : World) (e : event) : World := world_of (exec e w).

Definition run (evs : list event) (w : World) : World := fold_left step evs w.

(** A process that has just built its tracker, the wall clock reading [t0]. *)
Definition boot (t0 : Z) : World := mkWorld init [] t0 Caller [].

(** Shorthands for the tracker's attributes in a world. *)
Definition active (w : World) : gmap string Z := active_segments (self w).
Definition completed (w : World) : list (string * Z) := completed_segments (self w).
Definition timers (w : World) : gmap string nat := _timers (self w).

(** The value returned by a computation, when it returns. *)
Definition value_of {A} (o : outcome A) : option A :=
  match o with Returns a _ => Some a | Raises _ _ => None end.

(** ** The specification's reading of [total_time]

    Written from the words of the specification: the sum of the durations of
    the completed records, all of them or those whose label is in the given
    collection. *)
Fixpoint spec_total (labels : option (list string)) (records : list (string * Z)) : Z :=
  match records with
  | [] => 0
  | (l, d) :: rest =>
      match labels with
      | None => d + spec_total labels rest
      | Some ls => if bool_decide (l ∈ ls) then d + spec_total labels rest
                   else spec_total labels rest
      end
  end.

(** A message names a label when the label occurs in it. *)
Definition names (msg label : string) : Prop :=
  exists pre post, msg = pre +:+ label +:+ post.

(** A timer object after [cancel()]. *)
Definition cancel_timer (t : Timer) : Timer :=
  mkTimer (interval t) (args t) (daemon t) true (pc t).

(** The timer store after [cancel()] on the timer that [m] holds for
    [label], if it holds one. *)
Definition cancel_of (m : gmap string nat) (label : string) (ts : list Timer) : list Timer :=
  match m !! label with
  | Some r =>
      match ts !! r with
      | Some t => <[r := cancel_timer t]> ts
      | None => ts
      end
  | None => ts
  end.

(** The timer that [start] and [reset] leave in the store. *)
Definition fresh_timer (label : string) (now : Z) : Timer :=
  mkTimer TIME_WARNING_CPU (label, now) true false Waiting.

(** The world after the stamping of [label] at the current clock reading. *)
Definition stamped (label : string) (w : World) : World :=
  mkWorld
    (mkTracker (<[label := clock w]> (active w)) (completed w)
               (<[label := length (timer_store w)]> (timers w)))
    (timer_store w ++ [fresh_timer label (clock w)])
    (clock w) (running w) (warnings_log w).

(** The world after a successful [stop] of a label started at [t0]. *)
Definition stopped (label : string) (t0 : Z) (w : World) : World :=
  mkWorld
    (mkTracker (delete label (active w)) (completed w ++ [(label, clock w - t0)])
               (delete label (timers w)))
    (cancel_of (timers w) label (timer_store w))
    (clock w) (running w) (warnings_log w).

(** The world after [reset] of an active label. *)
Definition restamped (label : string) (w : World) : World :=
  stamped label
    (mkWorld (self w) (cancel_of (timers w) label (timer_store w)) (clock w)
             (running w)
             (warnings_log w ++ [mkWarning (running w) (reset_message label)])).

(** The world with [th] as the running thread. *)
Definition as_thread (th : thread) (w : World) : World :=
  mkWorld (self w) (timer_store w) (clock w) th (warnings_log w).

(** The warnings of a log that the thread of timer [tid] made. *)
Definition warnings_of (tid : nat) (log : list Warning) : list Warning :=
  filter (fun x => warned_in x = TimerThread tid) log.

(** What the statements of a timer thread do to its own object. *)
Definition wake_timer (t : Timer) : Timer :=
  match pc t with
  | Waiting =>
      if finished t then mkTimer (interval t) (args t) (daemon t) true Done
      else mkTimer (interval t) (args t) (daemon t) false Checked
  | _ => t
  end.

Definition guard_timer (act : gmap string Z) (t : Timer) : Timer :=
  match pc t with
  | Checked =>
      if bool_decide (act !! (args t).1 = Some (args t).2)
      then mkTimer (interval t) (args t) (daemon t) (finished t) Passed
      else mkTimer (interval t) (args t) (daemon t) true Done
  | _ => t
  end.

Definition emit_timer (t : Timer) : Timer :=
  match pc t with
  | Passed => mkTimer (interval t) (args t) (daemon t) true Done
  | _ => t
  end.

(** The warning that the step [Emit tid] adds, if it adds one. *)
Definition emitted (tid : nat) (ts : list Timer) : list Warning :=
  match ts !! tid with
  | Some t =>
      match pc t with
      | Passed => [mkWarning (TimerThread tid) (over_limit_message (args t).1)]
      | _ => []
      end
  | None => []
  end.

(** The timer objects agree with the tracker: the reference that [_timers]
    holds for a label is a timer of the store. *)
Definition refs_in_store (w : World) : Prop :=
  forall l r, timers w !! l = Some r -> (r < length (timer_store w))%nat.

(** The pending-timer map and the active-segment map have the same labels. *)
Definition agree (w : World) : Prop :=
  forall l, is_Some (timers w !! l) <-> is_Some (active w !! l).

(** A timer whose thread can no longer warn: it was cancelled before its
    thread woke, or its thread has returned. *)
Definition quiet (t : Timer) : Prop :=
  (pc t = Waiting /\ finished t = true) \/ pc t = Done.

(** ** The specification's reading of the mutual exclusion

    Written from the words of the specification: the check of the timer
    ("still active and start time unchanged") is atomic with respect to the
    calls of [stop] and [reset], so that whenever a timer thread is about to
    warn, the label of its timer is active with the start time the timer was
    given. *)
Definition warns_only_current : Prop :=
  forall (t0 : Z) (evs : list event) (tid : nat) (t : Timer),
    let w := run evs (boot t0) in
    timer_store w !! tid = Some t ->
    emitted tid (timer_store w) <> [] ->
    active w !! (args t).1 = Some (args t).2.

(** The thread of timer [tid] evaluated its guard, and found it true, at some
    point of the history [evs] run from [w0]. *)
Definition guard_held (w0 : World) (evs : list event) (tid : nat) : Prop :=
  exists evs1 evs2 t,
    evs = evs1 ++ Guard tid :: evs2 /\
    timer_store (run evs1 w0) !! tid = Some t /\
    pc t = Checked /\
    active (run evs1 w0) !! (args t).1 = Some (args t).2.

(** A history in which the caller stops and restarts a segment while the
    thread of its first timer is between the guard and the warning. *)
Definition restart_history : list event :=
  [Tick 0; Call (Start "fit"); Tick 600; Wake 0; Guard 0;
   Tick 601; Call (Stop "fit"); Tick 602; Call (Start "fit")].

(** ** Notions used by the further properties *)

(** [labels] selects the records of label [l]: no filter ([None]) selects
    every label, a list selects its elements. *)
Definition selects (labels : option (list string)) (l : string) : bool :=
  match labels with
  | None => true
  | Some ls => bool_decide (l ∈ ls)
  end.

(** The wall clock never goes back along a history that starts at reading
    [c]. *)
Fixpoint clock_monotone (c : Z) (evs : list event) : Prop :=
  match evs with
  | [] => True
  | Tick t :: rest => c <= t /\ clock_monotone t rest
  | _ :: rest => clock_monotone c rest
  end.

(** No active segment was started after the current clock reading. *)
Definition stamped_before_now (w : World) : Prop :=
  forall l st, active w !! l = Some st -> st <= clock w.

(** The timer that [_timers] holds for a label was created for that label
    and for its current start time, it has been started, and its event
    [finished] is set only if its thread has returned. *)
Definition current_timers (w : World) : Prop :=
  forall l r, timers w !! l = Some r ->
    exists t st, timer_store w !! r = Some t /\ args t = (l, st) /\
      active w !! l = Some st /\
      pc t <> NotStarted /\ (finished t = true -> pc t = Done).

(** A timer whose event [finished] is not set is the one that [_timers]
    holds for its label. *)
Definition pending_are_current (w : World) : Prop :=
  forall r t, timer_store w !! r = Some t -> finished t = false ->
    timers w !! (args t).1 = Some r.

(** What never changes in a timer object, and [finished] once it is set. *)
Definition same_timer (t t' : Timer) : Prop :=
  args t' = args t /\ interval t' = interval t /\ daemon t' = daemon t /\
  (finished t = true -> finished t' = true).

(** ** The specification's reading of the stale timer

    Written from the words of the specification: a stale timer never warns
    about a later incarnation of its label, one whose start time differs
    from the start time the timer was given. *)
Definition never_warns_later_incarnation : Prop :=
  forall (t0 : Z) (evs : list event) (tid : nat) (t : Timer) (st : Z),
    let w := run evs (boot t0) in
    timer_store w !! tid = Some t ->
    emitted tid (timer_store w) <> [] ->
    active w !! (args t).1 = Some st ->
    st = (args t).2.

(** The over-limit warnings about label [l] that the history [evs] makes
    while the timer [r] is the one that [_timers] holds for [l], that is
    during the incarnation of [l] that began with the creation of [r]. *)
Fixpoint warnings_during (l : string) (r : nat) (evs : list event) (w : World) : nat :=
  match evs with
  | [] => 0%nat
  | e :: rest =>
      ((match e with
        | Emit tid =>
            if bool_decide (timers w !! l = Some r)
            then length (filter (fun x => message x = over_limit_message l)
                                (emitted tid (timer_store w)))
            else 0
        | _ => 0
        end) + warnings_during l r rest (step w e))%nat
  end.

(** Written from the words of the specification: the long-running warning
    fires at most once per incarnation of a label. *)
Definition once_per_incarnation : Prop :=
  forall (t0 : Z) (evs : list event) (l : string) (r : nat),
    (warnings_during l r evs (boot t0) <= 1)%nat.

(** A history in which the caller resets a segment while the thread of its
    first timer is between the guard and the warning. *)
Definition reset_race_history : list event :=
  [Tick 0; Call (Start "fit"); Tick 600; Wake 0; Guard 0;
   Tick 601; Call (Reset "fit")].

(** The durations that the generator expression of [total_time] yields, in
    order: the list that [sum] receives. *)
Definition summands (labels : option (list string))
    (records : list (string * Z)) : list Z :=
  match labels with
  | None => map snd records
  | Some ls => map snd (filter (fun r => bool_decide (r.1 ∈ ls)) records)
  end.

(* ================================================================= *)
(** * Properties *)

(** ** Closed forms of the methods *)

Lemma dict_contains_Some {V} (d : gmap string V) k v :
  d !! k = Some v -> dict_contains d k = true.
Proof. intros H. unfold dict_contains. apply bool_decide_eq_true. eauto. Qed.

Lemma dict_contains_None {V} (d : gmap string V) k :
  d !! k = None -> dict_contains d k = false.
Proof.
  intros H. unfold dict_contains. apply bool_decide_eq_false.
  rewrite H. intros [? ?]; discriminate.
Qed.

Lemma world_eta w :
  mkWorld (self w) (timer_store w) (clock w) (running w) (warnings_log w) = w.
Proof. by destruct w. Qed.

Lemma store_lookup_fresh (ts : list Timer) t : (ts ++ [t]) !! length ts = Some t.
Proof. by rewrite list_lookup_middle. Qed.

Lemma store_insert_fresh (ts : list Timer) t t' :
  <[length ts := t']> (ts ++ [t]) = ts ++ [t'].
Proof.
  rewrite insert_app_r_alt; [|lia]. by rewrite Nat.sub_diag.
Qed.

Lemma stamp_and_schedule_eq label w :
  stamp_and_schedule label w = Returns () (stamped label w).
Proof.
  unfold stamp_and_schedule, stamped, bind, time_time, get_self, set_active,
    Timer_new, Timer_set_daemon, Timer_start, set_timers, update_timer,
    put_timer_store, put_self, bind, get_self, active, completed, timers; simpl.
  rewrite store_lookup_fresh; simpl.
  rewrite store_insert_fresh, store_lookup_fresh; simpl.
  by rewrite store_insert_fresh.
Qed.

Lemma start_active label w t0 :
  active w !! label = Some t0 ->
  start label w = Raises (RuntimeError (already_active_message label)) w.
Proof.
  intros H. unfold start, bind, get_self; simpl.
  unfold active in H. by rewrite (dict_contains_Some _ _ _ H).
Qed.

Lemma start_inactive label w :
  active w !! label = None ->
  start label w = Returns () (stamped label w).
Proof.
  intros H. unfold start, bind, get_self; simpl.
  unfold active in H. rewrite (dict_contains_None _ _ H).
  apply stamp_and_schedule_eq.
Qed.

Lemma stop_inactive_eq label w :
  active w !! label = None ->
  stop label w = Raises (RuntimeError (not_active_message label)) w.
Proof.
  intros H. unfold stop, bind, get_self; simpl.
  unfold active in H. by rewrite (dict_contains_None _ _ H).
Qed.

Lemma stop_active label w t0 :
  active w !! label = Some t0 ->
  stop label w = Returns () (stopped label t0 w).
Proof.
  intros H. unfold active in H.
  unfold stop, stopped, cancel_of, timers, active, completed.
  unfold bind at 1. unfold get_self at 1. simpl.
  rewrite (dict_contains_Some _ _ _ H); simpl.
  unfold pop_active, pop_timer, dict_get, set_active, set_timers, set_completed,
    Timer_cancel, update_timer, put_timer_store, time_time, bind, get_self,
    put_self, ret; simpl.
  rewrite H; simpl.
  destruct (_timers (self w) !! label) as [r|] eqn:Hr.
  - rewrite (dict_contains_Some _ _ _ Hr); simpl. rewrite Hr; simpl.
    destruct (timer_store w !! r) as [t|] eqn:Ht; simpl; reflexivity.
  - rewrite (dict_contains_None _ _ Hr); simpl.
    by rewrite (delete_id _ _ Hr).
Qed.

Lemma reset_inactive label w :
  active w !! label = None -> reset label w = Returns () w.
Proof.
  intros H. unfold reset, bind, get_self; simpl.
  unfold active in H. by rewrite (dict_contains_None _ _ H).
Qed.

Lemma reset_active label w t0 :
  active w !! label = Some t0 ->
  reset label w = Returns () (restamped label w).
Proof.
  intros H. unfold active in H.
  unfold reset, restamped.
  unfold bind at 1. unfold get_self at 1. simpl.
  rewrite (dict_contains_Some _ _ _ H); simpl.
  unfold bind at 1. unfold warnings_warn at 1. simpl.
  unfold bind at 1.
  unfold cancel_of, timers.
  destruct (_timers (self w) !! label) as [r|] eqn:Hr.
  - rewrite (dict_contains_Some _ _ _ Hr); simpl.
    unfold dict_get, Timer_cancel, update_timer, put_timer_store, bind, ret.
    rewrite Hr; simpl.
    destruct (timer_store w !! r) as [t|] eqn:Ht; simpl;
      rewrite stamp_and_schedule_eq; reflexivity.
  - rewrite (dict_contains_None _ _ Hr); simpl. unfold ret.
    rewrite stamp_and_schedule_eq; reflexivity.
Qed.

Lemma total_time_eq labels w :
  total_time labels w =
  Returns (match labels with
           | None => py_sum (map snd (completed w))
           | Some ls => py_sum (map snd
               (filter (fun r => bool_decide (r.1 ∈ ls)) (completed w)))
           end) w.
Proof. unfold total_time, bind, get_self, ret, completed. by destruct labels. Qed.

(** ** One step of a history *)

Lemma step_start w l :
  step w (Call (Start l)) =
  match active w !! l with
  | None => stamped l (as_thread Caller w)
  | Some _ => as_thread Caller w
  end.
Proof.
  unfold step, exec, call, bind, set_running. fold (as_thread Caller w).
  destruct (active w !! l) as [t0|] eqn:H.
  - by rewrite (start_active l (as_thread Caller w) t0).
  - by rewrite (start_inactive l (as_thread Caller w)).
Qed.

Lemma step_stop w l :
  step w (Call (Stop l)) =
  match active w !! l with
  | Some t0 => stopped l t0 (as_thread Caller w)
  | None => as_thread Caller w
  end.
Proof.
  unfold step, exec, call, bind, set_running. fold (as_thread Caller w).
  destruct (active w !! l) as [t0|] eqn:H.
  - by rewrite (stop_active l (as_thread Caller w) t0).
  - by rewrite (stop_inactive_eq l (as_thread Caller w)).
Qed.

Lemma step_reset w l :
  step w (Call (Reset l)) =
  match active w !! l with
  | Some _ => restamped l (as_thread Caller w)
  | None => as_thread Caller w
  end.
Proof.
  unfold step, exec, call, bind, set_running. fold (as_thread Caller w).
  destruct (active w !! l) as [t0|] eqn:H.
  - by rewrite (reset_active l (as_thread Caller w) t0).
  - by rewrite (reset_inactive l (as_thread Caller w)).
Qed.

Lemma step_total_time w ls : step w (Call (TotalTime ls)) = as_thread Caller w.
Proof.
  unfold step, exec, call, bind, set_running. fold (as_thread Caller w).
  by rewrite total_time_eq.
Qed.

Lemma still_current_eq label st w :
  still_current label st w = Returns (bool_decide (active w !! label = Some st)) w.
Proof.
  unfold still_current, bind, get_self, dict_get, ret, active; simpl.
  destruct (active_segments (self w) !! label) as [v|] eqn:H.
  - rewrite (dict_contains_Some _ _ _ H). simpl. f_equal.
    apply bool_decide_ext. split; congruence.
  - by rewrite (dict_contains_None _ _ H).
Qed.

Lemma warn_if_over_limit_eq label st w :
  _warn_if_over_limit label st w =
  if bool_decide (active w !! label = Some st)
  then warnings_warn (over_limit_message label) w
  else Returns () w.
Proof.
  unfold _warn_if_over_limit, bind. rewrite still_current_eq.
  by destruct (bool_decide _).
Qed.

(** The steps of the threads and of the clock leave the tracker object as it
    is. *)
Lemma step_env_self w e :
  (forall o, e <> Call o) -> self (step w e) = self w.
Proof.
  intros Hne. destruct e as [o|t|tid|tid|tid]; [by destruct (Hne o)|done|..];
    unfold step, exec, bind, set_running; simpl.
  - unfold timer_wake; simpl. destruct (timer_store w !! tid) as [t|]; [|done].
    destruct (pc t); try done.
    unfold set_pc, update_timer; simpl.
    destruct (finished t); simpl;
      destruct (timer_store w !! tid); done.
  - unfold timer_guard; simpl. destruct (timer_store w !! tid) as [t|]; [|done].
    destruct (pc t); try done.
    unfold bind. rewrite still_current_eq.
    unfold set_pc, update_timer; simpl.
    destruct (bool_decide _); simpl; destruct (timer_store w !! tid); done.
  - unfold timer_emit; simpl. destruct (timer_store w !! tid) as [t|]; [|done].
    destruct (pc t); try done.
    unfold bind, warnings_warn, set_pc, update_timer; simpl.
    destruct (timer_store w !! tid); done.
Qed.

Lemma run_app evs1 evs2 w : run (evs1 ++ evs2) w = run evs2 (run evs1 w).
Proof. apply fold_left_app. Qed.

Lemma run_cons e evs w : run (e :: evs) w = run evs (step w e).
Proof. reflexivity. Qed.

Lemma run_snoc evs e w : run (evs ++ [e]) w = step (run evs w) e.
Proof. by rewrite run_app. Qed.

(** ** Sums of completed records *)

Lemma fold_add_shift (xs : list Z) (a : Z) :
  fold_left Z.add xs a = a + fold_left Z.add xs 0.
Proof.
  revert a. induction xs as [|x xs IH]; intros a; simpl; [lia|].
  rewrite (IH (a + x)), (IH (0 + x)). lia.
Qed.

Lemma py_sum_cons (x : Z) (xs : list Z) : py_sum (x :: xs) = x + py_sum xs.
Proof. unfold py_sum; simpl. apply fold_add_shift. Qed.

Lemma py_sum_all (records : list (string * Z)) :
  py_sum (map snd records) = spec_total None records.
Proof.
  induction records as [|[l d] rest IH]; [done|].
  simpl map. rewrite py_sum_cons, IH. done.
Qed.

Lemma py_sum_selected (ls : list string) (records : list (string * Z)) :
  py_sum (map snd (filter (fun r => bool_decide (r.1 ∈ ls)) records)) =
  spec_total (Some ls) records.
Proof.
  induction records as [|[l d] rest IH]; [done|].
  rewrite filter_cons. simpl spec_total. simpl fst.
  destruct (decide (bool_decide (l ∈ ls))) as [Hin|Hin].
  - rewrite (Is_true_eq_true _ Hin). simpl map. by rewrite py_sum_cons, IH.
  - apply Is_true_false_1 in Hin. by rewrite Hin.
Qed.

Lemma total_time_spec labels w :
  total_time labels w = Returns (spec_total labels (completed w)) w.
Proof.
  rewrite total_time_eq. f_equal.
  destruct labels as [ls|]; [apply py_sum_selected | apply py_sum_all].
Qed.

Lemma start_completed label w : completed (world_of (start label w)) = completed w.
Proof.
  destruct (active w !! label) as [t0|] eqn:H.
  - by rewrite (start_active _ _ _ H).
  - by rewrite (start_inactive _ _ H).
Qed.

Lemma spec_total_cons labels l d rest :
  spec_total labels ((l, d) :: rest) =
  (if match labels with None => true | Some ls => bool_decide (l ∈ ls) end
   then d else 0) + spec_total labels rest.
Proof. destruct labels as [ls|]; simpl; [|done]. by destruct (bool_decide _). Qed.

Lemma in_a_a : bool_decide ("a"%string ∈ ["a"%string]) = true.
Proof. vm_compute; reflexivity. Qed.
Lemma in_b_a : bool_decide ("b"%string ∈ ["a"%string]) = false.
Proof. vm_compute; reflexivity. Qed.
Lemma in_a_c : bool_decide ("a"%string ∈ ["c"%string]) = false.
Proof. vm_compute; reflexivity. Qed.
Lemma in_b_c : bool_decide ("b"%string ∈ ["c"%string]) = false.
Proof. vm_compute; reflexivity. Qed.

(** C1. After every sequence of operations [total_time()] returns the sum of
    the durations of all completed records and [total_time(labels)] the sum of
    the durations of the completed records whose label is in [labels]
    (part 1). With completed records a, b, a of durations d1, d2, d3 the total
    for ["a"] is d1 + d3, whatever else the tracker holds (part 2); so it is
    when the three segments are timed one after the other while a fourth
    label stays active, and when b runs inside the first a and completes
    before it (parts 3 and 4). A segment that is started and not stopped
    changes no total (part 5). *)
Theorem total_time_sums_completed :
  (forall (evs : list event) (w0 : World) (labels : option (list string)),
     let w := run evs w0 in
     total_time labels w = Returns (spec_total labels (completed w)) w) /\
  (forall act tms store clk th log (d1 d2 d3 : Z),
     value_of (total_time (Some ["a"%string])
       (mkWorld (mkTracker act [("a"%string, d1); ("b"%string, d2); ("a"%string, d3)] tms)
                store clk th log)) = Some (d1 + d3)) /\
  (forall t0 s1 e1 s2 e2 s3 e3 : Z,
     let w := run [Call (Start "c"); Tick s1; Call (Start "a"); Tick e1; Call (Stop "a");
                   Tick s2; Call (Start "b"); Tick e2; Call (Stop "b");
                   Tick s3; Call (Start "a"); Tick e3; Call (Stop "a")] (boot t0) in
     value_of (total_time (Some ["a"%string]) w) = Some ((e1 - s1) + (e3 - s3)) /\
     value_of (total_time None w) = Some ((e1 - s1) + (e2 - s2) + (e3 - s3)) /\
     value_of (total_time (Some ["c"%string]) w) = Some 0) /\
  (forall t0 s1 e1 s2 e2 s3 e3 : Z,
     let w := run [Tick s1; Call (Start "a"); Tick s2; Call (Start "b");
                   Tick e2; Call (Stop "b"); Tick e1; Call (Stop "a");
                   Tick s3; Call (Start "a"); Tick e3; Call (Stop "a")] (boot t0) in
     value_of (total_time (Some ["a"%string]) w) = Some ((e1 - s1) + (e3 - s3))) /\
  (forall (w : World) (label : string) (labels : option (list string)),
     value_of (total_time labels (world_of (start label w))) =
     value_of (total_time labels w)).
Proof.
  split; [|split; [|split; [|split]]].
  - intros evs w0 labels w. apply total_time_spec.
  - intros. rewrite total_time_spec. unfold completed.
    cbn [self completed_segments value_of].
    rewrite !spec_total_cons, in_a_a, in_b_a. simpl. f_equal. lia.
  - intros t0 s1 e1 s2 e2 s3 e3 w. rewrite !total_time_spec.
    assert (Hc : completed w =
                 [("a"%string, e1 - s1); ("b"%string, e2 - s2); ("a"%string, e3 - s3)])
      by (vm_compute; reflexivity).
    rewrite Hc, !spec_total_cons, in_a_a, in_b_a, in_a_c, in_b_c. simpl.
    repeat split; f_equal; lia.
  - intros t0 s1 e1 s2 e2 s3 e3 w. rewrite !total_time_spec.
    assert (Hc : completed w =
                 [("b"%string, e2 - s2); ("a"%string, e1 - s1); ("a"%string, e3 - s3)])
      by (vm_compute; reflexivity).
    rewrite Hc, !spec_total_cons, in_a_a, in_b_a. simpl. f_equal; lia.
  - intros w label labels. rewrite !total_time_spec. simpl.
    by rewrite start_completed.
Qed.

(** ** Calls that change nothing *)

(** C7. [reset] of a label that is not active returns without an exception
    and leaves the world as it was: active segments, completed records,
    timers, the timer objects and the warnings; every later [total_time]
    therefore gives what it gave before. *)
Theorem reset_inactive_is_noop (w : World) (label : string) :
  active w !! label = None ->
  reset label w = Returns () w /\
  (forall labels, total_time labels (world_of (reset label w)) = total_time labels w).
Proof.
  intros H. rewrite (reset_inactive _ _ H). split; [done|]. intros; done.
Qed.

(** C8. [total_time] reads and does not write: it returns in the world it was
    called in, so the active segments, the completed records and the timers
    are those of before the call, and a second call returns the same
    value. *)
Theorem total_time_is_pure_read (w : World) (labels : option (list string)) :
  exists v : Z,
    total_time labels w = Returns v w /\
    (let! _ := total_time labels in total_time labels) w = Returns v w /\
    self (world_of (total_time labels w)) = self w.
Proof.
  exists (spec_total labels (completed w)).
  unfold bind. rewrite !total_time_spec. done.
Qed.

(** C9. A call of [start] or [stop] that raises leaves the world exactly as
    it found it, and the exception is the usage error of that method. *)
Theorem usage_errors_are_atomic (w w' : World) (label : string) (e : exn) :
  start label w = Raises e w' \/ stop label w = Raises e w' ->
  w' = w /\ self w' = self w /\
  (e = RuntimeError (already_active_message label) /\ is_Some (active w !! label) \/
   e = RuntimeError (not_active_message label) /\ active w !! label = None).
Proof.
  intros [H|H].
  - destruct (active w !! label) as [t0|] eqn:Ha.
    + rewrite (start_active _ _ _ Ha) in H. injection H as <- <-.
      repeat split; left; eauto.
    + rewrite (start_inactive _ _ Ha) in H. discriminate.
  - destruct (active w !! label) as [t0|] eqn:Ha.
    + rewrite (stop_active _ _ _ Ha) in H. discriminate.
    + rewrite (stop_inactive_eq _ _ Ha) in H. injection H as <- <-.
      repeat split; right; eauto.
Qed.

(** ** What one step does to the tracker's attributes *)

Lemma cancel_of_length m l ts : length (cancel_of m l ts) = length ts.
Proof.
  unfold cancel_of. destruct (m !! l) as [r|]; [|done].
  destruct (ts !! r); [|done]. by rewrite length_insert.
Qed.

Lemma active_step w e :
  active (step w e) =
  match e with
  | Call (Start l) =>
      match active w !! l with
      | None => <[l := clock w]> (active w)
      | Some _ => active w
      end
  | Call (Stop l) => delete l (active w)
  | Call (Reset l) =>
      match active w !! l with
      | Some _ => <[l := clock w]> (active w)
      | None => active w
      end
  | _ => active w
  end.
Proof.
  destruct e as [[l|l|l|ls]|t|tid|tid|tid];
    try (unfold active; by rewrite step_env_self).
  - rewrite step_start. by destruct (active w !! l).
  - rewrite step_stop. destruct (active w !! l) eqn:H; [done|].
    by rewrite (delete_id _ _ H).
  - rewrite step_reset. by destruct (active w !! l).
  - by rewrite step_total_time.
Qed.

Lemma timers_step w e :
  timers (step w e) =
  match e with
  | Call (Start l) =>
      match active w !! l with
      | None => <[l := length (timer_store w)]> (timers w)
      | Some _ => timers w
      end
  | Call (Stop l) =>
      match active w !! l with
      | Some _ => delete l (timers w)
      | None => timers w
      end
  | Call (Reset l) =>
      match active w !! l with
      | Some _ => <[l := length (timer_store w)]> (timers w)
      | None => timers w
      end
  | _ => timers w
  end.
Proof.
  destruct e as [[l|l|l|ls]|t|tid|tid|tid];
    try (unfold timers; by rewrite step_env_self).
  - rewrite step_start. by destruct (active w !! l).
  - rewrite step_stop. by destruct (active w !! l).
  - rewrite step_reset. destruct (active w !! l); [|done].
    unfold restamped, stamped, timers; simpl. by rewrite cancel_of_length.
  - by rewrite step_total_time.
Qed.

Lemma completed_step w e :
  completed (step w e) =
  match e with
  | Call (Stop l) =>
      match active w !! l with
      | Some t0 => completed w ++ [(l, clock w - t0)]
      | None => completed w
      end
  | _ => completed w
  end.
Proof.
  destruct e as [[l|l|l|ls]|t|tid|tid|tid];
    try (unfold completed; by rewrite step_env_self).
  - rewrite step_start. by destruct (active w !! l).
  - rewrite step_stop. by destruct (active w !! l).
  - rewrite step_reset. by destruct (active w !! l).
  - by rewrite step_total_time.
Qed.

Lemma step_stays_inactive w e l :
  active w !! l = None -> e <> Call (Start l) ->
  active (step w e) !! l = None.
Proof.
  intros H Hne. rewrite active_step.
  destruct e as [[l'|l'|l'|ls]|t|tid|tid|tid]; try done.
  - destruct (decide (l' = l)) as [->|Hl]; [done|].
    destruct (active w !! l'); [done|]. by rewrite lookup_insert_ne.
  - destruct (decide (l' = l)) as [->|Hl];
      [by rewrite lookup_delete_eq | by rewrite lookup_delete_ne].
  - destruct (decide (l' = l)) as [->|Hl]; [by rewrite H|].
    destruct (active w !! l'); [|done]. by rewrite lookup_insert_ne.
Qed.

Lemma step_stays_active w e l :
  is_Some (active w !! l) -> e <> Call (Stop l) ->
  is_Some (active (step w e) !! l).
Proof.
  intros H Hne. rewrite active_step.
  destruct e as [[l'|l'|l'|ls]|t|tid|tid|tid]; try done.
  - destruct (active w !! l') eqn:H'; [done|].
    destruct (decide (l' = l)) as [->|Hl];
      [rewrite lookup_insert_eq; eauto | by rewrite lookup_insert_ne].
  - destruct (decide (l' = l)) as [->|Hl]; [done|]. by rewrite lookup_delete_ne.
  - destruct (active w !! l') eqn:H'; [|done].
    destruct (decide (l' = l)) as [->|Hl];
      [rewrite lookup_insert_eq; eauto | by rewrite lookup_insert_ne].
Qed.

Lemma step_keeps_stamp w e l t0 :
  active w !! l = Some t0 -> e <> Call (Stop l) -> e <> Call (Reset l) ->
  active (step w e) !! l = Some t0.
Proof.
  intros H Hs Hr. rewrite active_step.
  destruct e as [[l'|l'|l'|ls]|t|tid|tid|tid]; try done.
  - destruct (active w !! l') eqn:H'; [done|].
    destruct (decide (l' = l)) as [->|Hl]; [congruence|].
    by rewrite lookup_insert_ne.
  - destruct (decide (l' = l)) as [->|Hl]; [done|]. by rewrite lookup_delete_ne.
  - destruct (decide (l' = l)) as [->|Hl]; [done|].
    destruct (active w !! l'); [|done]. by rewrite lookup_insert_ne.
Qed.

Lemma run_stays_inactive evs w l :
  active w !! l = None -> Call (Start l) ∉ evs ->
  active (run evs w) !! l = None.
Proof.
  revert w. induction evs as [|e evs IH]; intros w H Hn; [done|].
  rewrite run_cons. apply not_elem_of_cons in Hn as [Hne Hn].
  apply IH; [|done]. apply step_stays_inactive; congruence.
Qed.

Lemma run_stays_active evs w l :
  is_Some (active w !! l) -> Call (Stop l) ∉ evs ->
  is_Some (active (run evs w) !! l).
Proof.
  revert w. induction evs as [|e evs IH]; intros w H Hn; [done|].
  rewrite run_cons. apply not_elem_of_cons in Hn as [Hne Hn].
  apply IH; [|done]. apply step_stays_active; congruence.
Qed.

Lemma run_keeps_stamp evs w l t0 :
  active w !! l = Some t0 -> Call (Stop l) ∉ evs -> Call (Reset l) ∉ evs ->
  active (run evs w) !! l = Some t0.
Proof.
  revert w. induction evs as [|e evs IH]; intros w H Hs Hr; [done|].
  rewrite run_cons. apply not_elem_of_cons in Hs as [Hs1 Hs].
  apply not_elem_of_cons in Hr as [Hr1 Hr].
  apply IH; [|done..]. apply step_keeps_stamp; congruence.
Qed.

Lemma names_not_active l : names (not_active_message l) l.
Proof. by exists "No active segment found with label '"%string, "'."%string. Qed.

Lemma names_already_active l : names (already_active_message l) l.
Proof. by exists "Segment '"%string, "' is already active."%string. Qed.

Lemma stop_leaves_inactive w l : active (world_of (stop l w)) !! l = None.
Proof.
  destruct (active w !! l) as [t0|] eqn:H.
  - rewrite (stop_active _ _ _ H). unfold stopped, active; simpl.
    apply lookup_delete_eq.
  - by rewrite (stop_inactive_eq _ _ H).
Qed.

Lemma start_leaves_active w l : is_Some (active (world_of (start l w)) !! l).
Proof.
  destruct (active w !! l) as [t0|] eqn:H.
  - rewrite (start_active _ _ _ H). simpl. rewrite H. eauto.
  - rewrite (start_inactive _ _ H). unfold stamped; simpl.
    unfold active at 1; simpl. rewrite lookup_insert_eq. eauto.
Qed.

(** ** What one step does to the timer objects and to the warnings *)

Lemma touch_alter (f : Timer -> Timer) (r : nat) (ts : list Timer) :
  match ts !! r with Some t => <[r := f t]> ts | None => ts end = alter f r ts.
Proof.
  revert r. induction ts as [|t ts IH]; intros [|r]; simpl; try done.
  specialize (IH r). destruct (ts !! r); simpl in *; by f_equal.
Qed.

Lemma update_timer_eq f r w :
  update_timer f r w =
  Returns () (mkWorld (self w) (alter f r (timer_store w)) (clock w) (running w)
                      (warnings_log w)).
Proof.
  unfold update_timer, put_timer_store. rewrite <- touch_alter.
  destruct (timer_store w !! r); [done|]. by rewrite world_eta.
Qed.

Lemma cancel_of_alter m l ts :
  cancel_of m l ts =
  match m !! l with Some r => alter cancel_timer r ts | None => ts end.
Proof.
  unfold cancel_of. destruct (m !! l) as [r|]; [|done].
  apply (touch_alter cancel_timer).
Qed.

Lemma alter_at (f : Timer -> Timer) (r : nat) (ts : list Timer) t :
  ts !! r = Some t -> alter f r ts = <[r := f t]> ts.
Proof. intros H. by rewrite <- touch_alter, H. Qed.

Lemma alter_absent (f : Timer -> Timer) (r : nat) (ts : list Timer) :
  ts !! r = None -> alter f r ts = ts.
Proof. intros H. by rewrite <- touch_alter, H. Qed.

Lemma step_wake w tid :
  step w (Wake tid) =
  mkWorld (self w) (alter wake_timer tid (timer_store w)) (clock w)
          (TimerThread tid) (warnings_log w).
Proof.
  unfold step, exec, bind, set_running, timer_wake; simpl.
  destruct (timer_store w !! tid) as [t|] eqn:Ht.
  - rewrite (alter_at _ _ _ _ Ht). unfold wake_timer.
    destruct (pc t), (finished t);
      unfold set_pc, update_timer, put_timer_store; simpl; rewrite ?Ht; simpl;
      try done; by rewrite (list_insert_id _ _ _ Ht).
  - by rewrite (alter_absent _ _ _ Ht).
Qed.

Lemma step_guard w tid :
  step w (Guard tid) =
  mkWorld (self w) (alter (guard_timer (active w)) tid (timer_store w)) (clock w)
          (TimerThread tid) (warnings_log w).
Proof.
  unfold step, exec, bind, set_running, timer_guard; simpl.
  destruct (timer_store w !! tid) as [t|] eqn:Ht.
  - rewrite (alter_at _ _ _ _ Ht). unfold guard_timer.
    destruct (pc t); simpl; try by rewrite (list_insert_id _ _ _ Ht).
    unfold bind. rewrite still_current_eq. unfold active at 1; simpl.
    fold (active w).
    destruct (bool_decide (active w !! (args t).1 = Some (args t).2));
      unfold set_pc, update_timer, put_timer_store; simpl; by rewrite Ht.
  - by rewrite (alter_absent _ _ _ Ht).
Qed.

Lemma step_emit w tid :
  step w (Emit tid) =
  mkWorld (self w) (alter emit_timer tid (timer_store w)) (clock w)
          (TimerThread tid) (warnings_log w ++ emitted tid (timer_store w)).
Proof.
  unfold step, exec, bind, set_running, timer_emit, emitted; simpl.
  destruct (timer_store w !! tid) as [t|] eqn:Ht.
  - rewrite (alter_at _ _ _ _ Ht). unfold emit_timer.
    destruct (pc t); simpl;
      try by rewrite (list_insert_id _ _ _ Ht), app_nil_r.
    unfold bind, warnings_warn, set_pc, update_timer, put_timer_store; simpl.
    by rewrite Ht.
  - by rewrite (alter_absent _ _ _ Ht), app_nil_r.
Qed.

(** The store after a step, read at one reference. *)
Lemma store_step w e :
  timer_store (step w e) =
  match e with
  | Call (Start l) =>
      match active w !! l with
      | None => timer_store w ++ [fresh_timer l (clock w)]
      | Some _ => timer_store w
      end
  | Call (Stop l) =>
      match active w !! l with
      | Some _ => cancel_of (timers w) l (timer_store w)
      | None => timer_store w
      end
  | Call (Reset l) =>
      match active w !! l with
      | Some _ => cancel_of (timers w) l (timer_store w) ++ [fresh_timer l (clock w)]
      | None => timer_store w
      end
  | Call (TotalTime _) | Tick _ => timer_store w
  | Wake tid => alter wake_timer tid (timer_store w)
  | Guard tid => alter (guard_timer (active w)) tid (timer_store w)
  | Emit tid => alter emit_timer tid (timer_store w)
  end.
Proof.
  destruct e as [[l|l|l|ls]|t|tid|tid|tid].
  - rewrite step_start. by destruct (active w !! l).
  - rewrite step_stop. by destruct (active w !! l).
  - rewrite step_reset. by destruct (active w !! l).
  - by rewrite step_total_time.
  - done.
  - by rewrite step_wake.
  - by rewrite step_guard.
  - by rewrite step_emit.
Qed.

Lemma log_step w e :
  warnings_log (step w e) =
  warnings_log w ++
  match e with
  | Call (Reset l) =>
      match active w !! l with
      | Some _ => [mkWarning Caller (reset_message l)]
      | None => []
      end
  | Emit tid => emitted tid (timer_store w)
  | _ => []
  end.
Proof.
  destruct e as [[l|l|l|ls]|t|tid|tid|tid].
  - rewrite step_start. destruct (active w !! l); simpl; by rewrite app_nil_r.
  - rewrite step_stop. destruct (active w !! l); simpl; by rewrite app_nil_r.
  - rewrite step_reset. destruct (active w !! l); simpl; [done|by rewrite app_nil_r].
  - rewrite step_total_time. simpl; by rewrite app_nil_r.
  - simpl; by rewrite app_nil_r.
  - rewrite step_wake. simpl; by rewrite app_nil_r.
  - rewrite step_guard. simpl; by rewrite app_nil_r.
  - by rewrite step_emit.
Qed.

Lemma store_length_step w e :
  (length (timer_store w) <= length (timer_store (step w e)))%nat.
Proof.
  rewrite store_step.
  destruct e as [[l|l|l|ls]|t|tid|tid|tid]; try destruct (active w !! l);
    rewrite ?length_app, ?cancel_of_length, ?length_alter; simpl; lia.
Qed.

(** ** Invariants of histories *)

Lemma step_agree w e : agree w -> agree (step w e).
Proof.
  intros H l0. unfold agree in H. rewrite active_step, timers_step.
  destruct e as [[l|l|l|ls]|t|tid|tid|tid]; try apply H.
  - destruct (active w !! l) eqn:Ha; [apply H|].
    destruct (decide (l = l0)) as [->|Hne].
    + rewrite !lookup_insert_eq. split; eauto.
    + rewrite !lookup_insert_ne by done. apply H.
  - destruct (decide (l = l0)) as [->|Hne].
    + rewrite lookup_delete_eq. destruct (active w !! l0) eqn:Ha.
      * by rewrite lookup_delete_eq.
      * rewrite H, Ha. done.
    + rewrite lookup_delete_ne by done.
      destruct (active w !! l); [rewrite lookup_delete_ne by done|]; apply H.
  - destruct (active w !! l) eqn:Ha; [|apply H].
    destruct (decide (l = l0)) as [->|Hne].
    + rewrite !lookup_insert_eq. split; eauto.
    + rewrite !lookup_insert_ne by done. apply H.
Qed.

Lemma boot_agree t0 : agree (boot t0).
Proof. intros l. unfold timers, active, boot, init; simpl. by rewrite !lookup_empty. Qed.

Lemma run_agree evs w : agree w -> agree (run evs w).
Proof.
  revert w. induction evs as [|e evs IH]; intros w H; [done|].
  rewrite run_cons. by apply IH, step_agree.
Qed.

Lemma step_refs_in_store w e : refs_in_store w -> refs_in_store (step w e).
Proof.
  intros H l0 r. pose proof (store_length_step w e) as Hlen.
  rewrite timers_step.
  assert (Hold : timers w !! l0 = Some r ->
                 (r < length (timer_store (step w e)))%nat).
  { intros Hr. apply H in Hr. lia. }
  destruct e as [[l|l|l|ls]|t|tid|tid|tid]; try exact Hold.
  - pose proof (store_step w (Call (Start l))) as Hs.
    destruct (active w !! l) eqn:Ha; [exact Hold|].
    destruct (decide (l = l0)) as [->|Hne].
    + rewrite lookup_insert_eq. intros [= <-]. rewrite Ha in Hs.
      rewrite Hs, length_app. simpl. lia.
    + by rewrite lookup_insert_ne.
  - destruct (active w !! l) eqn:Ha; [|exact Hold].
    destruct (decide (l = l0)) as [->|Hne].
    + by rewrite lookup_delete_eq.
    + by rewrite lookup_delete_ne.
  - pose proof (store_step w (Call (Reset l))) as Hs.
    destruct (active w !! l) eqn:Ha; [|exact Hold].
    destruct (decide (l = l0)) as [->|Hne].
    + rewrite lookup_insert_eq. intros [= <-]. rewrite Ha in Hs.
      rewrite Hs, length_app, cancel_of_length. simpl. lia.
    + by rewrite lookup_insert_ne.
Qed.

Lemma boot_refs_in_store t0 : refs_in_store (boot t0).
Proof. intros l r. unfold timers, boot, init; simpl. by rewrite lookup_empty. Qed.

Lemma run_refs_in_store evs w : refs_in_store w -> refs_in_store (run evs w).
Proof.
  revert w. induction evs as [|e evs IH]; intros w H; [done|].
  rewrite run_cons. by apply IH, step_refs_in_store.
Qed.

(** ** Usage errors *)

(** C2. [stop] of a label that is not active raises the [RuntimeError] with
    the message "No active segment found with label '<label>'.", which names
    the label, and changes nothing. A label stays inactive as long as no
    [start] of it is called: so it is for a label that was never started
    (no label is active in a new tracker) and for one that was stopped
    (after any call of [stop] the label is not active). *)
Theorem stop_not_active_raises (w : World) (label : string) (evs : list event) :
  active w !! label = None ->
  Call (Start label) ∉ evs ->
  let w' := run evs w in
  stop label w' = Raises (RuntimeError (not_active_message label)) w' /\
  names (not_active_message label) label /\
  (forall t0, active (boot t0) !! label = None) /\
  (forall w0, active (world_of (stop label w0)) !! label = None).
Proof.
  intros H Hn w'. split; [|split; [|split]].
  - apply stop_inactive_eq. by apply run_stays_inactive.
  - apply names_not_active.
  - intros t0. apply lookup_empty.
  - intros w0. apply stop_leaves_inactive.
Qed.

(** C3. After a call of [start] on a label, and any history without a call of
    [stop] on that label, [start] on the label raises the [RuntimeError] with
    the message "Segment '<label>' is already active.", which names the
    label; and so does [start] in any world where the label is active. *)
Theorem start_twice_raises (w : World) (label : string) (evs : list event) :
  Call (Stop label) ∉ evs ->
  let w1 := run evs (world_of (start label w)) in
  start label w1 = Raises (RuntimeError (already_active_message label)) w1 /\
  names (already_active_message label) label /\
  (forall w0, is_Some (active w0 !! label) ->
     start label w0 = Raises (RuntimeError (already_active_message label)) w0).
Proof.
  intros Hn w1.
  assert (Hact : forall w0, is_Some (active w0 !! label) ->
     start label w0 = Raises (RuntimeError (already_active_message label)) w0).
  { intros w0 [t0 H0]. by apply (start_active _ _ t0). }
  split; [|split; [apply names_already_active|exact Hact]].
  apply Hact, run_stays_active; [apply start_leaves_active|done].
Qed.

(** ** Reset *)

(** C4. [reset] of an active label returns, appends nothing to the completed
    records and stamps the label with the clock reading of the reset. After
    any history without a [stop] or a [reset] of that label, [stop] appends
    the record of the label with the duration counted from the reading of
    the reset, not from the original start. *)
Theorem reset_active_restamps (w : World) (label : string) (t0 : Z)
    (evs : list event) :
  active w !! label = Some t0 ->
  Call (Stop label) ∉ evs -> Call (Reset label) ∉ evs ->
  exists w1, reset label w = Returns () w1 /\
    completed w1 = completed w /\
    active w1 !! label = Some (clock w) /\
    let w2 := run evs w1 in
    exists w3, stop label w2 = Returns () w3 /\
      completed w3 = completed w2 ++ [(label, clock w2 - clock w)].
Proof.
  intros H Hs Hr. exists (restamped label w).
  assert (Ha : active (restamped label w) !! label = Some (clock w)).
  { unfold restamped, stamped, active; simpl. apply lookup_insert_eq. }
  split; [by apply (reset_active _ _ t0)|]. split; [done|]. split; [done|].
  intros w2. exists (stopped label (clock w) w2). split; [|done].
  apply stop_active. by apply run_keeps_stamp.
Qed.

(** ** Timers and active segments *)

(** C6. In every world that a history reaches from a new tracker, a label has
    a pending timer exactly when it is active (part 1), and the reference
    held for it is a timer of the store (part 2). In such a world, [start] of
    an inactive label leaves it active with the timer just created (part 3),
    [stop] leaves the label in neither map (part 4), and [reset] of an active
    label leaves it active with the timer just created, which is not the one
    it had (part 5). *)
Theorem timers_iff_active :
  (forall t0 evs label, let w := run evs (boot t0) in
     is_Some (timers w !! label) <-> is_Some (active w !! label)) /\
  (forall t0 evs label r, let w := run evs (boot t0) in
     timers w !! label = Some r -> is_Some (timer_store w !! r)) /\
  (forall t0 evs label, let w := run evs (boot t0) in
     active w !! label = None ->
     let w' := world_of (start label w) in
     active w' !! label = Some (clock w) /\
     timers w' !! label = Some (length (timer_store w)) /\
     timer_store w' !! length (timer_store w) = Some (fresh_timer label (clock w))) /\
  (forall t0 evs label, let w := run evs (boot t0) in
     let w' := world_of (stop label w) in
     active w' !! label = None /\ timers w' !! label = None) /\
  (forall t0 evs label, let w := run evs (boot t0) in
     is_Some (active w !! label) ->
     let w' := world_of (reset label w) in
     active w' !! label = Some (clock w) /\
     timers w' !! label = Some (length (timer_store w)) /\
     timers w !! label <> Some (length (timer_store w)) /\
     timer_store w' !! length (timer_store w) = Some (fresh_timer label (clock w))).
Proof.
  split; [|split; [|split; [|split]]].
  - intros t0 evs label w. apply run_agree, boot_agree.
  - intros t0 evs label r w Hr. apply lookup_lt_is_Some.
    by apply (run_refs_in_store evs (boot t0) (boot_refs_in_store t0) label).
  - intros t0 evs label w H w'. subst w'. rewrite (start_inactive _ _ H).
    unfold stamped, active, timers; simpl.
    rewrite !lookup_insert_eq. by rewrite store_lookup_fresh.
  - intros t0 evs label w w'. split; [apply stop_leaves_inactive|].
    subst w'. destruct (active w !! label) as [t1|] eqn:Ha.
    + rewrite (stop_active _ _ _ Ha). unfold stopped, timers; simpl.
      apply lookup_delete_eq.
    + rewrite (stop_inactive_eq _ _ Ha). simpl.
      pose proof (run_agree evs (boot t0) (boot_agree t0) label) as Hag.
      fold w in Hag. rewrite Ha in Hag.
      destruct (timers w !! label) eqn:Ht; [|done].
      destruct Hag as [Hag _]. destruct Hag as [? ?]; [eauto|discriminate].
  - intros t0 evs label w [t1 Ha] w'. subst w'. rewrite (reset_active _ _ _ Ha).
    unfold restamped, stamped, active, timers; simpl.
    rewrite !lookup_insert_eq, cancel_of_length.
    split; [done|]. split; [done|]. split.
    + intros Hr.
      apply (run_refs_in_store evs (boot t0) (boot_refs_in_store t0) label) in Hr.
      fold w in Hr. lia.
    + rewrite <- (cancel_of_length (_timers (self w)) label (timer_store w)) at 1.
      apply store_lookup_fresh.
Qed.

(** ** Timer threads *)

(** A property of a timer object that no statement breaks is kept by every
    step. *)
Lemma step_timer_pres (P : Timer -> Prop) w e tid t :
  (forall t, P t -> P (cancel_timer t)) ->
  (forall t, P t -> P (wake_timer t)) ->
  (forall a t, P t -> P (guard_timer a t)) ->
  (forall t, P t -> P (emit_timer t)) ->
  timer_store w !! tid = Some t -> P t ->
  exists t', timer_store (step w e) !! tid = Some t' /\ P t'.
Proof.
  intros Hc Hw Hg He Ht HP. rewrite store_step.
  assert (Hlt : (tid < length (timer_store w))%nat) by by eapply lookup_lt_Some.
  assert (Halt : forall f i, (forall t, P t -> P (f t)) ->
            exists t', alter f i (timer_store w) !! tid = Some t' /\ P t').
  { intros f i Hf. rewrite list_lookup_alter. case_decide; subst.
    - rewrite Ht. simpl. eauto.
    - eauto. }
  assert (Hcan : forall m l,
            exists t', cancel_of m l (timer_store w) !! tid = Some t' /\ P t').
  { intros m l. rewrite cancel_of_alter. destruct (m !! l); eauto. }
  destruct e as [[l|l|l|ls]|t1|tid'|tid'|tid']; eauto.
  - destruct (active w !! l); [eauto|]. rewrite lookup_app_l by done. eauto.
  - destruct (active w !! l); eauto.
  - destruct (active w !! l); [|eauto].
    rewrite lookup_app_l by by rewrite cancel_of_length. eauto.
Qed.

Lemma quiet_cancel t : quiet t -> quiet (cancel_timer t).
Proof. unfold quiet, cancel_timer; simpl. tauto. Qed.
Lemma quiet_wake t : quiet t -> quiet (wake_timer t).
Proof.
  unfold quiet, wake_timer. intros [[H1 H2]|H]; [rewrite H1, H2|rewrite H];
    simpl; tauto.
Qed.
Lemma quiet_guard a t : quiet t -> quiet (guard_timer a t).
Proof. unfold quiet, guard_timer. intros [[H1 H2]|H]; [rewrite H1|rewrite H]; tauto. Qed.
Lemma quiet_emit t : quiet t -> quiet (emit_timer t).
Proof. unfold quiet, emit_timer. intros [[H1 H2]|H]; [rewrite H1|rewrite H]; tauto. Qed.

Lemma step_quiet w e tid t :
  timer_store w !! tid = Some t -> quiet t ->
  exists t', timer_store (step w e) !! tid = Some t' /\ quiet t'.
Proof.
  apply step_timer_pres;
    auto using quiet_cancel, quiet_wake, quiet_guard, quiet_emit.
Qed.

Lemma emitted_quiet tid ts t : ts !! tid = Some t -> quiet t -> emitted tid ts = [].
Proof.
  intros Ht [[H _]|H]; unfold emitted; by rewrite Ht, H.
Qed.

Lemma emitted_other tid tid' ts : tid' <> tid -> warnings_of tid (emitted tid' ts) = [].
Proof.
  intros Hne. unfold emitted. destruct (ts !! tid') as [t|]; [|done].
  destruct (pc t); try done.
  unfold warnings_of. rewrite filter_cons. simpl.
  case_decide as H; [|done]. congruence.
Qed.

(** The warnings of a timer thread after a step: those of before, and the one
    of its own step [Emit]. *)
Lemma warnings_of_step w e tid :
  warnings_of tid (warnings_log (step w e)) =
  warnings_of tid (warnings_log w) ++
  (if decide (e = Emit tid) then emitted tid (timer_store w) else []).
Proof.
  rewrite log_step. unfold warnings_of at 1. rewrite filter_app.
  fold (warnings_of tid (warnings_log w)). f_equal.
  destruct e as [[l|l|l|ls]|t1|tid'|tid'|tid']; try done.
  - destruct (active w !! l); [|done]. rewrite filter_cons. simpl.
    repeat case_decide; done.
  - case_decide as H.
    + injection H as ->. unfold emitted.
      destruct (timer_store w !! tid) as [t|]; [|done].
      destruct (pc t); try done. rewrite filter_cons. simpl.
      case_decide; done.
    + apply (emitted_other tid tid'). congruence.
Qed.

Lemma run_quiet evs w tid t :
  timer_store w !! tid = Some t -> quiet t ->
  warnings_of tid (warnings_log (run evs w)) = warnings_of tid (warnings_log w).
Proof.
  revert w t. induction evs as [|e evs IH]; intros w t Ht Hq; [done|].
  rewrite run_cons.
  destruct (step_quiet w e tid t Ht Hq) as (t' & Ht' & Hq').
  rewrite (IH _ _ Ht' Hq'), warnings_of_step.
  rewrite (emitted_quiet _ _ _ Ht Hq). case_decide; by rewrite app_nil_r.
Qed.

(** At most one warning per timer thread: once it has warned it has
    returned. *)
Lemma step_once w e tid :
  (warnings_of tid (warnings_log w) = [] \/
   length (warnings_of tid (warnings_log w)) = 1%nat /\
   exists t, timer_store w !! tid = Some t /\ pc t = Done) ->
  (warnings_of tid (warnings_log (step w e)) = [] \/
   length (warnings_of tid (warnings_log (step w e))) = 1%nat /\
   exists t, timer_store (step w e) !! tid = Some t /\ pc t = Done).
Proof.
  rewrite warnings_of_step. intros [H|(Hlen & t & Ht & Hpc)].
  - rewrite H. simpl. case_decide as He; [|by left]. subst e.
    unfold emitted. destruct (timer_store w !! tid) as [t|] eqn:Ht; [|by left].
    destruct (pc t) eqn:Hpc; try by left.
    right. split; [done|]. rewrite store_step, list_lookup_alter_eq, Ht. simpl.
    eexists; split; [done|]. unfold emit_timer. by rewrite Hpc.
  - right. rewrite (emitted_quiet tid _ t Ht) by by right.
    split; [case_decide; by rewrite app_nil_r|].
    destruct (step_quiet w e tid t Ht) as (t' & Ht' & Hq'); [by right|].
    assert (Hd : exists t', timer_store (step w e) !! tid = Some t' /\ pc t' = Done).
    { apply (step_timer_pres (fun t => pc t = Done) w e tid t); try done.
      - intros t1 H1. unfold wake_timer. by rewrite H1.
      - intros a t1 H1. unfold guard_timer. by rewrite H1.
      - intros t1 H1. unfold emit_timer. by rewrite H1. }
    exact Hd.
Qed.

Lemma run_once evs w tid :
  warnings_of tid (warnings_log w) = [] ->
  (length (warnings_of tid (warnings_log (run evs w))) <= 1)%nat.
Proof.
  intros H0.
  assert (H : warnings_of tid (warnings_log (run evs w)) = [] \/
     length (warnings_of tid (warnings_log (run evs w))) = 1%nat /\
     exists t, timer_store (run evs w) !! tid = Some t /\ pc t = Done).
  { assert (Hw : warnings_of tid (warnings_log w) = [] \/
       length (warnings_of tid (warnings_log w)) = 1%nat /\
       exists t, timer_store w !! tid = Some t /\ pc t = Done) by by left.
    clear H0. revert w Hw. induction evs as [|e evs IH]; intros w Hw; [done|].
    rewrite run_cons. apply IH. by apply step_once. }
  destruct H as [-> | [-> _]]; simpl; lia.
Qed.

Lemma alter_insert_at (f : Timer -> Timer) (r : nat) (ts : list Timer) x :
  (r < length ts)%nat -> alter f r (<[r := x]> ts) = <[r := f x]> ts.
Proof.
  intros Hlt. rewrite (alter_at f r _ x) by by apply list_lookup_insert_eq.
  by rewrite list_insert_insert_eq.
Qed.

(** The three steps of a timer thread, taken with nothing in between, are
    [Timer.run()] with the callback [_warn_if_over_limit] as it is written. *)
Lemma Timer_run_steps w tid t :
  timer_store w !! tid = Some t -> pc t = Waiting ->
  world_of (Timer_run tid (as_thread (TimerThread tid) w)) =
  run [Wake tid; Guard tid; Emit tid] w.
Proof.
  intros Ht Hpc.
  assert (Hlt : (tid < length (timer_store w))%nat) by by eapply lookup_lt_Some.
  unfold run; simpl. rewrite step_wake, step_guard, step_emit; simpl.
  unfold emitted. rewrite (alter_at wake_timer _ _ _ Ht).
  rewrite alter_insert_at by done.
  rewrite list_lookup_insert_eq by done.
  rewrite alter_insert_at by done.
  unfold Timer_run; simpl. rewrite Ht, Hpc. unfold bind.
  unfold active at 1; simpl. fold (active w).
  unfold wake_timer. rewrite Hpc.
  destruct (finished t) eqn:Hf; simpl.
  - unfold set_pc. rewrite update_timer_eq; simpl.
    rewrite (alter_at _ _ _ _ Ht). by rewrite app_nil_r.
  - rewrite warn_if_over_limit_eq. unfold guard_timer, emit_timer, active; simpl.
    destruct (bool_decide (active_segments (self w) !! (args t).1 = Some (args t).2));
      simpl; unfold set_pc; rewrite update_timer_eq; simpl;
      rewrite (alter_at _ _ _ _ Ht); by rewrite ?app_nil_r.
Qed.

Lemma alter_lookup_inv (f : Timer -> Timer) (i j : nat) (ts : list Timer) t' :
  alter f i ts !! j = Some t' ->
  exists t, ts !! j = Some t /\ (t' = t \/ i = j /\ t' = f t).
Proof.
  rewrite list_lookup_alter. case_decide as H; [subst|by eauto].
  destruct (ts !! j) as [t|]; [|done]. simpl. intros [= <-]. eauto.
Qed.

Lemma cancel_of_lookup_inv m l (ts : list Timer) j t' :
  cancel_of m l ts !! j = Some t' ->
  exists t, ts !! j = Some t /\ pc t' = pc t /\ args t' = args t.
Proof.
  rewrite cancel_of_alter. destruct (m !! l) as [r|]; [|by eauto].
  intros H. apply alter_lookup_inv in H as (t & Ht & [->|[_ ->]]); eauto.
Qed.

Lemma fresh_lookup_inv (ts : list Timer) l now j t' :
  (ts ++ [fresh_timer l now]) !! j = Some t' ->
  ts !! j = Some t' \/ t' = fresh_timer l now.
Proof.
  intros H. apply lookup_app_Some in H as [H|[_ H]]; [by left|right].
  destruct (j - length ts)%nat; simpl in H; [congruence|done].
Qed.

Lemma wake_passed t : pc (wake_timer t) = Passed -> pc t = Passed.
Proof.
  unfold wake_timer. destruct (pc t) eqn:Hp; rewrite ?Hp; try done.
  by destruct (finished t).
Qed.

Lemma emit_passed t : pc (emit_timer t) <> Passed.
Proof. unfold emit_timer. destruct (pc t) eqn:Hp; rewrite ?Hp; done. Qed.

Lemma guard_passed a t :
  pc (guard_timer a t) = Passed ->
  pc t = Passed \/ pc t = Checked /\ a !! (args t).1 = Some (args t).2.
Proof.
  unfold guard_timer. destruct (pc t) eqn:Hp; rewrite ?Hp; try done; [|by left].
  destruct (bool_decide (a !! (args t).1 = Some (args t).2)) eqn:Hb; [|done].
  intros _. right. split; [done|]. by apply bool_decide_eq_true in Hb.
Qed.

(** A thread is past its guard only through its own step [Guard], taken
    when the guard was true. *)
Lemma passed_origin w e tid t' :
  timer_store (step w e) !! tid = Some t' -> pc t' = Passed ->
  (exists t, timer_store w !! tid = Some t /\ pc t = Passed) \/
  (e = Guard tid /\ exists t, timer_store w !! tid = Some t /\ pc t = Checked /\
     active w !! (args t).1 = Some (args t).2).
Proof.
  rewrite store_step. intros H Hpc.
  destruct e as [[l|l|l|ls]|t1|tid'|tid'|tid']; eauto.
  - destruct (active w !! l); [by eauto|].
    apply fresh_lookup_inv in H as [H| ->]; [by eauto|done].
  - destruct (active w !! l); [|by eauto].
    apply cancel_of_lookup_inv in H as (t & Ht & Hp & _).
    left. exists t. split; congruence.
  - destruct (active w !! l); [|by eauto].
    apply fresh_lookup_inv in H as [H| ->]; [|done].
    apply cancel_of_lookup_inv in H as (t & Ht & Hp & _).
    left. exists t. split; congruence.
  - apply alter_lookup_inv in H as (t & Ht & [->|[-> ->]]); [by eauto|].
    left. exists t. split; [done|]. by apply wake_passed.
  - apply alter_lookup_inv in H as (t & Ht & [->|[-> ->]]); [by eauto|].
    destruct (guard_passed _ _ Hpc) as [Hp|[Hp Hg]]; [by eauto|].
    right. split; [done|]. eauto.
  - apply alter_lookup_inv in H as (t & Ht & [->|[-> ->]]); [by eauto|].
    by destruct (emit_passed t).
Qed.

Lemma emitted_passed tid ts :
  emitted tid ts <> [] -> exists t, ts !! tid = Some t /\ pc t = Passed.
Proof.
  unfold emitted. destruct (ts !! tid) as [t|]; [|done].
  destruct (pc t) eqn:Hp; try done. eauto.
Qed.

Lemma guard_held_snoc w0 evs e tid : guard_held w0 evs tid -> guard_held w0 (evs ++ [e]) tid.
Proof.
  intros (evs1 & evs2 & t & -> & H). exists evs1, (evs2 ++ [e]), t.
  split; [|done]. by rewrite <- app_assoc.
Qed.

Lemma run_guard_held evs w0 tid :
  (forall tid t, timer_store w0 !! tid = Some t -> pc t <> Passed) ->
  warnings_of tid (warnings_log w0) = [] ->
  (exists t, timer_store (run evs w0) !! tid = Some t /\ pc t = Passed) \/
  warnings_of tid (warnings_log (run evs w0)) <> [] ->
  guard_held w0 evs tid.
Proof.
  intros Hst Hlog. induction evs as [|e evs IH] using rev_ind.
  - intros [(t & Ht & Hp)|H]; [by destruct (Hst _ _ Ht)|done].
  - rewrite run_snoc.
    assert (Hpassed : (exists t, timer_store (step (run evs w0) e) !! tid = Some t /\
                          pc t = Passed) -> guard_held w0 (evs ++ [e]) tid).
    { intros (t' & Ht' & Hp').
      destruct (passed_origin _ _ _ _ Ht' Hp') as [Hold|[-> (t & Ht & Hp & Hg)]].
      - apply guard_held_snoc, IH. by left.
      - exists evs, [], t. done. }
    intros [H|H]; [by apply Hpassed|].
    rewrite warnings_of_step in H.
    destruct (decide (warnings_of tid (warnings_log (run evs w0)) = [])) as [Hnil|Hne].
    + rewrite Hnil in H. simpl in H. case_decide as He; [|done]. subst e.
      apply guard_held_snoc, IH. left. by apply emitted_passed.
    + apply guard_held_snoc, IH. by right.
Qed.

(** ** The long-running warning *)

(** C5, what the code does. The callback [_warn_if_over_limit] warns exactly
    when, at the time it evaluates its guard, the label is active with the
    start time the timer was given, and changes nothing otherwise (part 1).
    So, run in one piece, it does not warn for a label that was stopped
    (part 2), nor for a label that is active with another start time, a
    later incarnation (part 3). In every history the thread of a timer warns
    at most once (part 4). A timer whose label is stopped while its thread
    still waits for the threshold never warns afterwards (part 5). The steps
    of a timer thread taken together are [run()] of [threading.Timer] with
    the callback as it is written (part 6). A thread that evaluates its
    guard when the label is not active with the start time of its timer
    never warns, then or later (part 7). Nothing is said of a thread that
    has passed its guard. *)
Theorem warning_guard_is_start_time :
  (forall w label st,
     _warn_if_over_limit label st w =
     if bool_decide (active w !! label = Some st)
     then warnings_warn (over_limit_message label) w
     else Returns () w) /\
  (forall w label st,
     let w' := world_of (stop label w) in
     _warn_if_over_limit label st w' = Returns () w') /\
  (forall w label st st',
     active w !! label = Some st' -> st' <> st ->
     _warn_if_over_limit label st w = Returns () w) /\
  (forall t0 evs tid,
     (length (warnings_of tid (warnings_log (run evs (boot t0)))) <= 1)%nat) /\
  (forall w label tid t evs,
     is_Some (active w !! label) ->
     timers w !! label = Some tid ->
     timer_store w !! tid = Some t -> pc t = Waiting ->
     warnings_of tid (warnings_log (run evs (world_of (stop label w)))) =
     warnings_of tid (warnings_log w)) /\
  (forall w tid t,
     timer_store w !! tid = Some t -> pc t = Waiting ->
     world_of (Timer_run tid (as_thread (TimerThread tid) w)) =
     run [Wake tid; Guard tid; Emit tid] w) /\
  (forall w tid t evs,
     timer_store w !! tid = Some t -> pc t = Checked ->
     active w !! (args t).1 <> Some (args t).2 ->
     warnings_of tid (warnings_log (run evs (step w (Guard tid)))) =
     warnings_of tid (warnings_log w)).
Proof.
  split; [|split; [|split; [|split; [|split; [|split]]]]].
  - intros. apply warn_if_over_limit_eq.
  - intros w label st w'. rewrite warn_if_over_limit_eq.
    subst w'. rewrite stop_leaves_inactive. done.
  - intros w label st st' Ha Hne. rewrite warn_if_over_limit_eq, Ha.
    rewrite bool_decide_eq_false_2; [done|congruence].
  - intros t0 evs tid. by apply run_once.
  - intros w label tid t evs [st Ha] Htm Ht Hpc.
    rewrite (stop_active _ _ _ Ha). simpl world_of.
    apply (run_quiet evs (stopped label st w) tid (cancel_timer t)).
    + unfold stopped; simpl. rewrite cancel_of_alter, Htm.
      by rewrite list_lookup_alter_eq, Ht.
    + left. by split.
  - intros w tid t. apply Timer_run_steps.
  - intros w tid t evs Ht Hpc Hne.
    assert (Hg : guard_timer (active w) t =
                 mkTimer (interval t) (args t) (daemon t) true Done).
    { unfold guard_timer. rewrite Hpc. by rewrite bool_decide_eq_false_2. }
    rewrite (run_quiet evs (step w (Guard tid)) tid (guard_timer (active w) t)).
    + by rewrite step_guard.
    + by rewrite step_guard; simpl; rewrite list_lookup_alter_eq, Ht.
    + right. by rewrite Hg.
Qed.

(** C5, as the specification states it, fails. In [reset_race_history] the
    thread of the first timer of "fit" (start time 0) wakes at time 600 and
    passes its guard; the caller then resets the segment at 601, which
    cancels the timer too late. The thread warns while the label is active
    with the start time 601 of the later incarnation, and when the thread
    of the second timer warns in its turn, two warnings have been made
    during that one incarnation. *)
Lemma stale_timer_warns_in_later_incarnation :
  let w := run reset_race_history (boot 0) in
  timer_store w !! 0%nat =
    Some (mkTimer TIME_WARNING_CPU ("fit"%string, 0) true true Passed) /\
  active w !! "fit"%string = Some 601 /\
  timers w !! "fit"%string = Some 1%nat /\
  emitted 0 (timer_store w) =
    [mkWarning (TimerThread 0) (over_limit_message "fit")] /\
  warnings_during "fit" 1
    (reset_race_history ++ [Emit 0; Tick 1201; Wake 1; Guard 1; Emit 1])
    (boot 0) = 2%nat /\
  ~ never_warns_later_incarnation /\
  ~ once_per_incarnation.
Proof.
  assert (Hs : timer_store (run reset_race_history (boot 0)) !! 0%nat =
               Some (mkTimer TIME_WARNING_CPU ("fit"%string, 0) true true Passed))
    by (vm_compute; reflexivity).
  assert (Ha : active (run reset_race_history (boot 0)) !! "fit"%string = Some 601)
    by (vm_compute; reflexivity).
  assert (Hw : warnings_during "fit" 1
                 (reset_race_history ++ [Emit 0; Tick 1201; Wake 1; Guard 1; Emit 1])
                 (boot 0) = 2%nat)
    by (vm_compute; reflexivity).
  split; [exact Hs|].
  split; [exact Ha|].
  split; [vm_compute; reflexivity|].
  split; [vm_compute; reflexivity|].
  split; [exact Hw|].
  split.
  - intros Hclaim.
    assert (He : emitted 0 (timer_store (run reset_race_history (boot 0))) <> [])
      by (vm_compute; discriminate).
    pose proof (Hclaim 0 reset_race_history 0%nat _ 601 Hs He Ha) as Heq.
    simpl in Heq. discriminate.
  - intros Hclaim.
    pose proof (Hclaim 0
      (reset_race_history ++ [Emit 0; Tick 1201; Wake 1; Guard 1; Emit 1])
      "fit"%string 1%nat) as Hle.
    rewrite Hw in Hle. lia.
Qed.

(** ** Mutual exclusion *)

(** C10, what the code does. The module takes no lock, and the guard of the
    callback and its warning are two statements: whenever a timer thread has
    warned in a history, that thread evaluated its guard at an earlier point
    of the history where the label was active with the start time given to
    the timer. Nothing is said of the world in which the warning itself is
    made. *)
Theorem warning_follows_own_guard (t0 : Z) (evs : list event) (tid : nat) :
  warnings_of tid (warnings_log (run evs (boot t0))) <> [] ->
  guard_held (boot t0) evs tid.
Proof.
  intros H. apply run_guard_held; [|done|by right].
  intros tid' t Ht. by destruct tid'.
Qed.

(** C10, as the specification states it, fails: in [restart_history] the
    thread of the first timer of "fit" (start time 0) wakes at time 600 and
    has passed its guard when the caller stops the segment at 601 and starts
    it again at 602; the thread then warns although the active segment is
    not the one it checked. *)
Lemma restart_between_guard_and_warning :
  let w := run restart_history (boot 0) in
  timer_store w !! 0%nat = Some (mkTimer TIME_WARNING_CPU ("fit"%string, 0) true true Passed) /\
  active w !! "fit"%string = Some 602 /\
  completed w = [("fit"%string, 601)] /\
  warnings_log (step w (Emit 0)) =
    [mkWarning (TimerThread 0) (over_limit_message "fit")] /\
  ~ warns_only_current.
Proof.
  assert (Hs : timer_store (run restart_history (boot 0)) !! 0%nat =
               Some (mkTimer TIME_WARNING_CPU ("fit"%string, 0) true true Passed))
    by (vm_compute; reflexivity).
  split; [exact Hs|].
  split; [vm_compute; reflexivity|].
  split; [vm_compute; reflexivity|].
  split; [vm_compute; reflexivity|].
  intros Hclaim. specialize (Hclaim 0 restart_history 0%nat _ Hs).
  assert (He : emitted 0 (timer_store (run restart_history (boot 0))) <> [])
    by (vm_compute; discriminate).
  apply Hclaim in He. vm_compute in He. discriminate.
Qed.

(** ** The theorems at concrete histories *)

Ltac by_evaluation := apply (bool_decide_unpack _); vm_compute; exact I.

Lemma stop_not_active_raises_witness :
  let w := world_of (stop "fit" (run [Tick 1; Call (Start "fit")] (boot 0))) in
  let evs := [Tick 3; Call (Start "predict"); Call (Reset "fit")] in
  active w !! "fit"%string = None /\
  (Call (Start "fit") ∉ evs) /\
  stop "fit" (run evs w) =
    Raises (RuntimeError (not_active_message "fit")) (run evs w).
Proof.
  intros w evs.
  assert (H1 : active w !! "fit"%string = None) by (vm_compute; reflexivity).
  assert (H2 : Call (Start "fit") ∉ evs) by by_evaluation.
  split; [exact H1|]. split; [exact H2|].
  exact (proj1 (stop_not_active_raises w "fit" evs H1 H2)).
Defined.

Lemma start_twice_raises_witness :
  let evs := [Tick 4; Call (Start "predict"); Call (Reset "fit"); Wake 0] in
  let w1 := run evs (world_of (start "fit" (boot 0))) in
  (Call (Stop "fit") ∉ evs) /\
  start "fit" w1 = Raises (RuntimeError (already_active_message "fit")) w1.
Proof.
  intros evs w1.
  assert (H : Call (Stop "fit") ∉ evs) by by_evaluation.
  split; [exact H|].
  exact (proj1 (start_twice_raises (boot 0) "fit" evs H)).
Defined.

Lemma reset_active_restamps_witness :
  let w := run [Tick 1; Call (Start "fit"); Tick 4] (boot 0) in
  let evs := [Tick 9; Call (Start "predict")] in
  active w !! "fit"%string = Some 1 /\
  (Call (Stop "fit") ∉ evs) /\ (Call (Reset "fit") ∉ evs) /\
  exists w1, reset "fit" w = Returns () w1 /\
    completed w1 = completed w /\
    active w1 !! "fit"%string = Some (clock w) /\
    let w2 := run evs w1 in
    exists w3, stop "fit" w2 = Returns () w3 /\
      completed w3 = completed w2 ++ [("fit"%string, clock w2 - clock w)].
Proof.
  intros w evs.
  assert (H1 : active w !! "fit"%string = Some 1) by (vm_compute; reflexivity).
  assert (H2 : Call (Stop "fit") ∉ evs) by by_evaluation.
  assert (H3 : Call (Reset "fit") ∉ evs) by by_evaluation.
  split; [exact H1|]. split; [exact H2|]. split; [exact H3|].
  exact (reset_active_restamps w "fit" 1 evs H1 H2 H3).
Defined.

Lemma warning_guard_is_start_time_witness :
  let w := run [Tick 1; Call (Start "fit")] (boot 0) in
  let evs := [Wake 0; Guard 0; Emit 0] in
  (active w !! "fit"%string = Some 1 /\ 1 <> 0 /\
   _warn_if_over_limit "fit" 0 w = Returns () w) /\
  (is_Some (active w !! "fit"%string) /\
   timers w !! "fit"%string = Some 0%nat /\
   timer_store w !! 0%nat = Some (fresh_timer "fit" 1) /\
   pc (fresh_timer "fit" 1) = Waiting /\
   warnings_of 0 (warnings_log (run evs (world_of (stop "fit" w)))) =
   warnings_of 0 (warnings_log w)) /\
  world_of (Timer_run 0 (as_thread (TimerThread 0) w)) = run evs w /\
  (let w' := run [Wake 0; Tick 5; Call (Stop "fit"); Tick 6; Call (Start "fit")] w in
   let t := mkTimer TIME_WARNING_CPU ("fit"%string, 1) true true Checked in
   timer_store w' !! 0%nat = Some t /\ pc t = Checked /\
   active w' !! (args t).1 <> Some (args t).2 /\
   warnings_of 0 (warnings_log (run [Emit 0; Guard 0; Emit 0] (step w' (Guard 0)))) =
   warnings_of 0 (warnings_log w')).
Proof.
  intros w evs.
  destruct warning_guard_is_start_time as (_ & _ & P3 & _ & P5 & P6 & P7).
  assert (H1 : active w !! "fit"%string = Some 1) by (vm_compute; reflexivity).
  assert (H2 : 1 <> 0) by discriminate.
  assert (H3 : is_Some (active w !! "fit"%string)) by (rewrite H1; eauto).
  assert (H4 : timers w !! "fit"%string = Some 0%nat) by (vm_compute; reflexivity).
  assert (H5 : timer_store w !! 0%nat = Some (fresh_timer "fit" 1))
    by (vm_compute; reflexivity).
  assert (H6 : pc (fresh_timer "fit" 1) = Waiting) by reflexivity.
  split; [split; [exact H1|split; [exact H2|exact (P3 w "fit"%string 0 1 H1 H2)]]|].
  split; [split; [exact H3|split; [exact H4|split; [exact H5|split; [exact H6|
    exact (P5 w "fit"%string 0%nat _ evs H3 H4 H5 H6)]]]]|].
  split; [exact (P6 w 0%nat _ H5 H6)|].
  intros w' t.
  assert (H7 : timer_store w' !! 0%nat = Some t) by (vm_compute; reflexivity).
  assert (H8 : pc t = Checked) by reflexivity.
  assert (H9 : active w' !! (args t).1 <> Some (args t).2)
    by (vm_compute; discriminate).
  split; [exact H7|]. split; [exact H8|]. split; [exact H9|].
  exact (P7 w' 0%nat t [Emit 0; Guard 0; Emit 0] H7 H8 H9).
Defined.

Lemma timers_iff_active_witness :
  let evs := [Tick 2; Call (Start "fit"); Tick 7] in
  let w := run evs (boot 0) in
  (timers w !! "fit"%string = Some 0%nat /\ is_Some (timer_store w !! 0%nat)) /\
  (active w !! "predict"%string = None /\
   timers (world_of (start "predict" w)) !! "predict"%string =
     Some (length (timer_store w))) /\
  (is_Some (active w !! "fit"%string) /\
   active (world_of (reset "fit" w)) !! "fit"%string = Some (clock w) /\
   timers w !! "fit"%string <> Some (length (timer_store w))).
Proof.
  intros evs w.
  destruct timers_iff_active as (_ & P2 & P3 & _ & P5).
  assert (H1 : timers w !! "fit"%string = Some 0%nat) by (vm_compute; reflexivity).
  assert (H2 : active w !! "predict"%string = None) by (vm_compute; reflexivity).
  assert (H3 : is_Some (active w !! "fit"%string)) by (exists 2; vm_compute; reflexivity).
  split; [split; [exact H1|exact (P2 0 evs "fit"%string 0%nat H1)]|].
  split; [split; [exact H2|exact (proj1 (proj2 (P3 0 evs "predict"%string H2)))]|].
  split; [exact H3|].
  pose proof (P5 0 evs "fit"%string H3) as (Q1 & _ & Q3 & _).
  split; [exact Q1|exact Q3].
Defined.

Lemma reset_inactive_is_noop_witness :
  let w := run [Tick 2; Call (Start "fit")] (boot 0) in
  active w !! "predict"%string = None /\
  reset "predict" w = Returns () w.
Proof.
  intros w.
  assert (H : active w !! "predict"%string = None) by (vm_compute; reflexivity).
  split; [exact H|]. exact (proj1 (reset_inactive_is_noop w "predict" H)).
Defined.

Lemma usage_errors_are_atomic_witness :
  let w := run [Tick 2; Call (Start "fit")] (boot 0) in
  (start "fit" w = Raises (RuntimeError (already_active_message "fit")) w /\ w = w) /\
  (stop "predict" w = Raises (RuntimeError (not_active_message "predict")) w /\ w = w).
Proof.
  intros w.
  assert (H1 : start "fit" w = Raises (RuntimeError (already_active_message "fit")) w)
    by (vm_compute; reflexivity).
  assert (H2 : stop "predict" w = Raises (RuntimeError (not_active_message "predict")) w)
    by (vm_compute; reflexivity).
  split.
  - split; [exact H1|].
    exact (proj1 (usage_errors_are_atomic w w "fit" _ (or_introl H1))).
  - split; [exact H2|].
    exact (proj1 (usage_errors_are_atomic w w "predict" _ (or_intror H2))).
Defined.

Lemma warning_follows_own_guard_witness :
  let evs := restart_history ++ [Emit 0] in
  warnings_of 0 (warnings_log (run evs (boot 0))) <> [] /\
  guard_held (boot 0) evs 0.
Proof.
  intros evs.
  assert (H : warnings_of 0 (warnings_log (run evs (boot 0))) <> [])
    by (vm_compute; discriminate).
  split; [exact H|exact (warning_follows_own_guard 0 evs 0%nat H)].
Defined.

(* ================================================================= *)
(** * Further properties of the tracker *)

(** ** The worlds that the methods leave *)

Lemma start_world l w :
  world_of (start l w) =
  match active w !! l with None => stamped l w | Some _ => w end.
Proof.
  destruct (active w !! l) as [t0|] eqn:H.
  - by rewrite (start_active _ _ _ H).
  - by rewrite (start_inactive _ _ H).
Qed.

Lemma stop_world l w :
  world_of (stop l w) =
  match active w !! l with Some t0 => stopped l t0 w | None => w end.
Proof.
  destruct (active w !! l) as [t0|] eqn:H.
  - by rewrite (stop_active _ _ _ H).
  - by rewrite (stop_inactive_eq _ _ H).
Qed.

Lemma reset_world l w :
  world_of (reset l w) =
  match active w !! l with Some _ => restamped l w | None => w end.
Proof.
  destruct (active w !! l) as [t0|] eqn:H.
  - by rewrite (reset_active _ _ _ H).
  - by rewrite (reset_inactive _ _ H).
Qed.

(** ** Errors *)

(** X1. No method raises [KeyError]: the dictionary reads and pops are all
    behind a test of membership. In every world, even one where the two maps
    disagree, the callback, [reset] and [total_time] return, and [start] and
    [stop] either return or raise their own [RuntimeError]. *)
Theorem only_usage_errors_are_raised :
  (forall w label st, exists w', _warn_if_over_limit label st w = Returns () w') /\
  (forall w label, exists w', reset label w = Returns () w') /\
  (forall w labels, exists v, total_time labels w = Returns v w) /\
  (forall w label,
     (exists w', start label w = Returns () w') \/
     start label w = Raises (RuntimeError (already_active_message label)) w) /\
  (forall w label,
     (exists w', stop label w = Returns () w') \/
     stop label w = Raises (RuntimeError (not_active_message label)) w).
Proof.
  split; [|split; [|split; [|split]]].
  - intros w label st. rewrite warn_if_over_limit_eq.
    destruct (bool_decide _); unfold warnings_warn; eauto.
  - intros w label. destruct (active w !! label) as [t0|] eqn:H.
    + rewrite (reset_active _ _ _ H). eauto.
    + rewrite (reset_inactive _ _ H). eauto.
  - intros w labels. rewrite total_time_spec. eauto.
  - intros w label. destruct (active w !! label) as [t0|] eqn:H.
    + right. by apply (start_active _ _ t0).
    + left. rewrite (start_inactive _ _ H). eauto.
  - intros w label. destruct (active w !! label) as [t0|] eqn:H.
    + left. rewrite (stop_active _ _ _ H). eauto.
    + right. by apply stop_inactive_eq.
Qed.

(** ** Labels are independent *)

(** X2. A call of [start], [stop] or [reset] on one label changes neither
    the start time nor the timer of any other label. *)
Theorem other_labels_are_untouched (w : World) (l l' : string) :
  l <> l' ->
  (active (world_of (start l w)) !! l' = active w !! l' /\
   timers (world_of (start l w)) !! l' = timers w !! l') /\
  (active (world_of (stop l w)) !! l' = active w !! l' /\
   timers (world_of (stop l w)) !! l' = timers w !! l') /\
  (active (world_of (reset l w)) !! l' = active w !! l' /\
   timers (world_of (reset l w)) !! l' = timers w !! l').
Proof.
  intros Hne. rewrite start_world, stop_world, reset_world.
  destruct (active w !! l) as [t0|];
    unfold stamped, stopped, restamped, stamped, active, timers; simpl;
    rewrite ?lookup_insert_ne, ?lookup_delete_ne by done; done.
Qed.

(** ** Warnings of the caller *)

(** X3. [start], [stop] and [total_time] never warn. [reset] warns exactly
    when the label is active, once, with the message "Resetting <label> time
    segment.", in the thread that called it. *)
Theorem only_reset_warns (w : World) (l : string) (labels : option (list string)) :
  warnings_log (world_of (start l w)) = warnings_log w /\
  warnings_log (world_of (stop l w)) = warnings_log w /\
  warnings_log (world_of (total_time labels w)) = warnings_log w /\
  warnings_log (world_of (reset l w)) =
    warnings_log w ++
    (if dict_contains (active w) l
     then [mkWarning (running w) (reset_message l)] else []).
Proof.
  rewrite start_world, stop_world, reset_world, total_time_spec.
  destruct (active w !! l) as [t0|] eqn:H.
  - by rewrite (dict_contains_Some _ _ _ H).
  - rewrite (dict_contains_None _ _ H). by rewrite app_nil_r.
Qed.

(** ** Completed records *)

(** X4. The completed records are append-only: whatever happens, the records
    of before are a prefix of the records of after, none is removed, changed
    or reordered. *)
Theorem completed_is_append_only (evs : list event) (w : World) :
  completed w `prefix_of` completed (run evs w).
Proof.
  revert w. induction evs as [|e evs IH]; intros w; [done|].
  rewrite run_cons. etrans; [|apply IH].
  rewrite completed_step. destruct e as [[l|l|l|ls]|t|tid|tid|tid]; try done.
  destruct (active w !! l); [|done]. by apply prefix_app_r.
Qed.

(** ** A segment from start to stop *)

Lemma delete_insert_absent {V} (m : gmap string V) l x :
  m !! l = None -> delete l (<[l := x]> m) = m.
Proof. intros H. by rewrite delete_insert_eq, delete_id. Qed.

(** X5. Round trip. From a world that a history has reached, timing an
    inactive label from [start] to [stop] gives back the active segments and
    the timers of before, and adds the one record of the label with the
    difference of the two clock readings. *)
Theorem start_stop_round_trip (t0 : Z) (evs : list event) (l : string) (now : Z) :
  let w := run evs (boot t0) in
  active w !! l = None ->
  let w2 := run [Call (Start l); Tick now; Call (Stop l)] w in
  active w2 = active w /\
  timers w2 = timers w /\
  completed w2 = completed w ++ [(l, now - clock w)].
Proof.
  intros w H w2. subst w2. unfold run at 1 2 3; simpl.
  set (w1 := step w (Call (Start l))).
  set (w1' := step w1 (Tick now)).
  assert (Ht : timers w !! l = None).
  { pose proof (run_agree evs (boot t0) (boot_agree t0) l) as Hag.
    fold w in Hag. rewrite H in Hag.
    destruct (timers w !! l) eqn:Htl; [|done].
    destruct Hag as [[? ?] _]; [eauto|discriminate]. }
  assert (Ha1 : active w1' = <[l := clock w]> (active w)).
  { unfold w1', w1. rewrite !active_step, H. done. }
  assert (Ht1 : timers w1' = <[l := length (timer_store w)]> (timers w)).
  { unfold w1', w1. rewrite !timers_step, H. done. }
  assert (Hc1 : completed w1' = completed w).
  { unfold w1', w1. by rewrite !completed_step. }
  rewrite active_step, timers_step, completed_step, Ha1, Ht1, Hc1.
  rewrite lookup_insert_eq. by rewrite !delete_insert_absent.
Qed.

(** X6. [start] of an inactive label, then any history without a [stop] or
    a [reset] of that label, then [stop]: the call returns and appends the
    record of the label with the clock reading of the stop minus the
    reading of the start. *)
Theorem stop_measures_from_start (w : World) (l : string) (evs : list event) :
  active w !! l = None ->
  Call (Stop l) ∉ evs -> Call (Reset l) ∉ evs ->
  let w2 := run evs (world_of (start l w)) in
  exists w3, stop l w2 = Returns () w3 /\
    completed w3 = completed w2 ++ [(l, clock w2 - clock w)].
Proof.
  intros H Hs Hr w2. exists (stopped l (clock w) w2). split; [|done].
  apply stop_active. apply run_keeps_stamp; [|done..].
  rewrite (start_inactive _ _ H). unfold stamped, active; simpl.
  apply lookup_insert_eq.
Qed.

(** ** Totals *)

Lemma total_time_summands labels w :
  total_time labels w = Returns (py_sum (summands labels (completed w))) w.
Proof. rewrite total_time_eq. by destruct labels. Qed.

Lemma summands_snoc labels (records : list (string * Z)) l d :
  summands labels (records ++ [(l, d)]) =
  summands labels records ++ (if selects labels l then [d] else []).
Proof.
  destruct labels as [ls|]; simpl.
  - rewrite filter_app, map_app. f_equal.
    rewrite filter_cons, filter_nil. simpl.
    destruct (decide (bool_decide (l ∈ ls))) as [Hin|Hin].
    + by rewrite (Is_true_eq_true _ Hin).
    + apply Is_true_false_1 in Hin. by rewrite Hin.
  - by rewrite map_app.
Qed.

(** X7. What [total_time] sums after a successful [stop]: the durations it
    summed before, in the same order, followed by the duration just
    recorded when the labels select the stopped label, and nothing more
    when they do not, so that such a total is what it was. *)
Theorem stop_adds_one_summand (w : World) (l : string) (st : Z)
    (labels : option (list string)) :
  active w !! l = Some st ->
  let w' := world_of (stop l w) in
  total_time labels w = Returns (py_sum (summands labels (completed w))) w /\
  total_time labels w' = Returns (py_sum (summands labels (completed w'))) w' /\
  summands labels (completed w') =
    summands labels (completed w) ++
    (if selects labels l then [clock w - st] else []) /\
  (selects labels l = false ->
   value_of (total_time labels w') = value_of (total_time labels w)).
Proof.
  intros H w'.
  assert (Hs : summands labels (completed w') =
               summands labels (completed w) ++
               (if selects labels l then [clock w - st] else [])).
  { subst w'. rewrite (stop_active _ _ _ H). unfold stopped, completed; simpl.
    apply summands_snoc. }
  split; [apply total_time_summands|]. split; [apply total_time_summands|].
  split; [exact Hs|].
  intros Hsel. rewrite !total_time_summands, Hs, Hsel. simpl.
  by rewrite app_nil_r.
Qed.

Lemma spec_total_ext ls ls' (records : list (string * Z)) :
  (forall x, x ∈ ls <-> x ∈ ls') ->
  spec_total (Some ls) records = spec_total (Some ls') records.
Proof.
  intros Hiff. induction records as [|[l d] rest IH]; [done|].
  rewrite !spec_total_cons, IH. f_equal.
  by rewrite (bool_decide_ext _ _ (Hiff l)).
Qed.

(** X8. [total_time(labels)] looks only at which labels occur in the list:
    two lists with the same elements, in any order and with any repetition,
    give the same total (part 2). The empty list is not the absent argument:
    it selects no record and the total is 0 (part 1). *)
Theorem total_time_reads_labels_as_a_set :
  (forall w, total_time (Some []) w = Returns 0 w) /\
  (forall w (ls ls' : list string),
     (forall x, x ∈ ls <-> x ∈ ls') ->
     total_time (Some ls) w = total_time (Some ls') w).
Proof.
  split.
  - intros w. rewrite total_time_spec. f_equal.
    induction (completed w) as [|[l d] rest IH]; [done|].
    rewrite spec_total_cons, IH. unfold selects.
    rewrite bool_decide_eq_false_2 by apply not_elem_of_nil. done.
  - intros w ls ls' Hiff. rewrite !total_time_spec. f_equal.
    by apply spec_total_ext.
Qed.

(** X9. A list of labels that contains the label of every completed record
    selects every record: [total_time] with that list returns what
    [total_time()] returns, the same durations being summed in the same
    order. *)
Theorem total_time_with_every_label (w : World) (ls : list string) :
  (forall r, r ∈ completed w -> r.1 ∈ ls) ->
  summands (Some ls) (completed w) = summands None (completed w) /\
  total_time (Some ls) w = total_time None w.
Proof.
  intros Hc.
  assert (Hs : summands (Some ls) (completed w) = summands None (completed w)).
  { simpl. f_equal. revert Hc.
    induction (completed w) as [|r rest IH]; intros Hc; [done|].
    rewrite filter_cons.
    assert (Hr : r.1 ∈ ls) by (apply Hc, elem_of_cons; by left).
    rewrite (bool_decide_eq_true_2 _ Hr). simpl. f_equal.
    apply IH. intros r' Hr'. apply Hc, elem_of_cons. by right. }
  split; [exact Hs|]. by rewrite !total_time_summands, Hs.
Qed.

(** ** Durations under a clock that does not go back *)

Lemma clock_step w e :
  clock (step w e) = match e with Tick t => t | _ => clock w end.
Proof.
  destruct e as [[l|l|l|ls]|t|tid|tid|tid].
  - rewrite step_start. by destruct (active w !! l).
  - rewrite step_stop. by destruct (active w !! l).
  - rewrite step_reset. by destruct (active w !! l).
  - by rewrite step_total_time.
  - done.
  - by rewrite step_wake.
  - by rewrite step_guard.
  - by rewrite step_emit.
Qed.

Lemma step_stamped_before_now w e :
  clock_monotone (clock w) [e] -> stamped_before_now w ->
  stamped_before_now (step w e).
Proof.
  intros Hm H l st. rewrite active_step, clock_step.
  destruct e as [[l0|l0|l0|ls]|t|tid|tid|tid]; try apply H.
  - destruct (active w !! l0); [apply H|].
    destruct (decide (l0 = l)) as [->|Hne].
    + rewrite lookup_insert_eq. intros [= <-]. lia.
    + rewrite lookup_insert_ne by done. apply H.
  - destruct (decide (l0 = l)) as [->|Hne].
    + by rewrite lookup_delete_eq.
    + rewrite lookup_delete_ne by done. apply H.
  - destruct (active w !! l0); [|apply H].
    destruct (decide (l0 = l)) as [->|Hne].
    + rewrite lookup_insert_eq. intros [= <-]. lia.
    + rewrite lookup_insert_ne by done. apply H.
  - intros Ha. apply H in Ha. simpl in Hm. lia.
Qed.

Lemma step_durations_nonneg w e :
  stamped_before_now w ->
  Forall (fun r => 0 <= r.2) (completed w) ->
  Forall (fun r => 0 <= r.2) (completed (step w e)).
Proof.
  intros H Hc. rewrite completed_step.
  destruct e as [[l0|l0|l0|ls]|t|tid|tid|tid]; try done.
  destruct (active w !! l0) as [st|] eqn:Ha; [|done].
  apply Forall_app. split; [done|]. apply Forall_singleton. simpl.
  apply H in Ha. lia.
Qed.

Lemma clock_monotone_cons c e evs :
  clock_monotone c (e :: evs) ->
  clock_monotone c [e] /\
  clock_monotone (match e with Tick t => t | _ => c end) evs.
Proof. destruct e; simpl; tauto. Qed.

Lemma run_durations_nonneg evs w :
  clock_monotone (clock w) evs ->
  stamped_before_now w ->
  Forall (fun r => 0 <= r.2) (completed w) ->
  Forall (fun r => 0 <= r.2) (completed (run evs w)).
Proof.
  revert w. induction evs as [|e evs IH]; intros w Hm H Hc; [done|].
  rewrite run_cons. apply clock_monotone_cons in Hm as [Hm1 Hm2].
  apply IH.
  - by rewrite clock_step.
  - by apply step_stamped_before_now.
  - by apply step_durations_nonneg.
Qed.

Lemma spec_total_nonneg labels (records : list (string * Z)) :
  Forall (fun r => 0 <= r.2) records -> 0 <= spec_total labels records.
Proof.
  induction 1 as [|[l d] rest Hd _ IH]; [done|].
  rewrite spec_total_cons. simpl in Hd.
  destruct (match labels with None => true | Some ls => bool_decide (l ∈ ls) end); lia.
Qed.

(** X11. A duration is the difference of two readings of [time.time()], the
    wall clock. In a history where the clock never goes back, every recorded
    duration is non-negative, and so is every total. *)
Theorem durations_are_nonnegative (t0 : Z) (evs : list event) :
  clock_monotone t0 evs ->
  let w := run evs (boot t0) in
  Forall (fun r => 0 <= r.2) (completed w) /\
  (forall labels, exists v, total_time labels w = Returns v w /\ 0 <= v).
Proof.
  intros Hm w.
  assert (Hc : Forall (fun r => 0 <= r.2) (completed w)).
  { apply run_durations_nonneg; [done| |by apply Forall_nil].
    intros l st. unfold active, boot, init; simpl. by rewrite lookup_empty. }
  split; [done|]. intros labels. exists (spec_total labels (completed w)).
  split; [apply total_time_spec|by apply spec_total_nonneg].
Qed.

(** ** The timer objects *)

(** Where a timer object of the store after a step comes from. *)
Lemma store_step_inv w e r t' :
  timer_store (step w e) !! r = Some t' ->
  (exists l, t' = fresh_timer l (clock w) /\ r = length (timer_store w)) \/
  exists t, timer_store w !! r = Some t /\
    (t' = t \/ t' = cancel_timer t \/ t' = wake_timer t \/
     t' = guard_timer (active w) t \/ t' = emit_timer t).
Proof.
  rewrite store_step.
  assert (Hcan : forall m l t1,
            cancel_of m l (timer_store w) !! r = Some t1 ->
            exists t, timer_store w !! r = Some t /\ (t1 = t \/ t1 = cancel_timer t)).
  { intros m l t1. rewrite cancel_of_alter. destruct (m !! l) as [r0|]; [|by eauto].
    intros H. apply alter_lookup_inv in H as (t & Ht & [->|[_ ->]]); eauto. }
  assert (Hfresh : forall (ts : list Timer) l t1,
            length ts = length (timer_store w) ->
            (ts ++ [fresh_timer l (clock w)]) !! r = Some t1 ->
            ts !! r = Some t1 \/
            (t1 = fresh_timer l (clock w) /\ r = length (timer_store w))).
  { intros ts l t1 Hlen H. apply lookup_app_Some in H as [H|[Hge H]]; [by left|].
    right. destruct (r - length ts)%nat as [|n] eqn:Hn; simpl in H; [|done].
    split; [congruence|lia]. }
  destruct e as [[l|l|l|ls]|t1|tid|tid|tid]; try by (intros H; right; eauto).
  - destruct (active w !! l); [by (intros H; right; eauto)|].
    intros H. apply Hfresh in H; [|done].
    destruct H as [H|[-> ->]]; [right|left]; eauto.
  - destruct (active w !! l); [|by (intros H; right; eauto)].
    intros H. apply Hcan in H as (t & Ht & [->| ->]); right; eauto 6.
  - destruct (active w !! l); [|by (intros H; right; eauto)].
    intros H. apply Hfresh in H; [|by apply cancel_of_length].
    destruct H as [H|[-> ->]]; [|by left; eauto].
    apply Hcan in H as (t & Ht & [->| ->]); right; eauto 6.
  - intros H. apply alter_lookup_inv in H as (t & Ht & [->|[_ ->]]); right; eauto 8.
  - intros H. apply alter_lookup_inv in H as (t & Ht & [->|[_ ->]]); right; eauto 8.
  - intros H. apply alter_lookup_inv in H as (t & Ht & [->|[_ ->]]); right; eauto 8.
Qed.

(** X12. Every timer that a history leaves in the store is a daemon timer
    with the interval [TIME_WARNING_CPU] whose thread has been started: no
    timer is created and left unstarted, and none keeps the process
    alive. *)
Theorem timers_are_started_daemons (t0 : Z) (evs : list event) (r : nat) (t : Timer) :
  timer_store (run evs (boot t0)) !! r = Some t ->
  daemon t = true /\ interval t = TIME_WARNING_CPU /\ pc t <> NotStarted.
Proof.
  revert r t. induction evs as [|e evs IH] using rev_ind; intros r t.
  - by destruct r.
  - rewrite run_snoc. intros H.
    apply store_step_inv in H as [(l & -> & _)|(t1 & Ht1 & Hcase)]; [done|].
    destruct (IH _ _ Ht1) as (Hd & Hi & Hp).
    destruct Hcase as [->|[->|[->|[->| ->]]]]; [done|done|..].
    + unfold wake_timer. destruct (pc t1) eqn:Hpc; try destruct (finished t1);
        simpl; rewrite ?Hpc; repeat split; done.
    + unfold guard_timer. destruct (pc t1) eqn:Hpc; try destruct (bool_decide _);
        simpl; rewrite ?Hpc; repeat split; done.
    + unfold emit_timer. destruct (pc t1) eqn:Hpc;
        simpl; rewrite ?Hpc; repeat split; done.
Qed.

Lemma same_timer_refl t : same_timer t t.
Proof. by unfold same_timer. Qed.

Lemma step_same_timer w e r t0 t :
  timer_store w !! r = Some t -> same_timer t0 t ->
  exists t', timer_store (step w e) !! r = Some t' /\ same_timer t0 t'.
Proof.
  apply (step_timer_pres (same_timer t0)); unfold same_timer.
  - intros t1 (Ha & Hi & Hd & Hf). simpl. tauto.
  - intros t1 (Ha & Hi & Hd & Hf). unfold wake_timer.
    destruct (pc t1); try tauto. destruct (finished t1) eqn:Hfin; simpl; try tauto;
      repeat split; try done; intros H; apply Hf in H; done.
  - intros a t1 (Ha & Hi & Hd & Hf). unfold guard_timer.
    destruct (pc t1); try tauto. destruct (bool_decide _); simpl; tauto.
  - intros t1 (Ha & Hi & Hd & Hf). unfold emit_timer.
    destruct (pc t1); simpl; tauto.
Qed.

(** X13. A timer object is never removed from the store and never reused:
    through any history it keeps its arguments (label and start time), its
    interval and its daemon flag, and once it is cancelled or has run it
    stays finished. *)
Theorem timer_objects_are_stable (evs : list event) (w : World) (r : nat) (t : Timer) :
  timer_store w !! r = Some t ->
  exists t', timer_store (run evs w) !! r = Some t' /\ same_timer t t'.
Proof.
  intros Ht.
  assert (H : exists t', timer_store w !! r = Some t' /\ same_timer t t')
    by (exists t; split; [done|apply same_timer_refl]).
  clear Ht. revert w H. induction evs as [|e evs IH]; intros w H; [done|].
  rewrite run_cons. apply IH. destruct H as (t1 & Ht1 & Hs).
  by apply (step_same_timer w e r t t1).
Qed.

(** ** The timers that [_timers] holds *)

Lemma wake_timer_args t : args (wake_timer t) = args t.
Proof. unfold wake_timer. destruct (pc t); try done. by destruct (finished t). Qed.

Lemma guard_timer_args a t : args (guard_timer a t) = args t.
Proof. unfold guard_timer. destruct (pc t); try done. by destruct (bool_decide _). Qed.

Lemma emit_timer_args t : args (emit_timer t) = args t.
Proof. unfold emit_timer. by destruct (pc t). Qed.

Lemma wake_timer_ok t :
  pc t <> NotStarted -> (finished t = true -> pc t = Done) ->
  pc (wake_timer t) <> NotStarted /\
  (finished (wake_timer t) = true -> pc (wake_timer t) = Done).
Proof.
  unfold wake_timer. intros Hp Hf.
  destruct (pc t) eqn:Hpc; rewrite ?Hpc; try done.
  destruct (finished t); simpl; split; done.
Qed.

Lemma guard_timer_ok a t :
  pc t <> NotStarted -> (finished t = true -> pc t = Done) ->
  pc (guard_timer a t) <> NotStarted /\
  (finished (guard_timer a t) = true -> pc (guard_timer a t) = Done).
Proof.
  unfold guard_timer. intros Hp Hf.
  destruct (pc t) eqn:Hpc; rewrite ?Hpc; try done.
  destruct (bool_decide _); simpl; split; try done. intros H. by apply Hf in H.
Qed.

Lemma emit_timer_ok t :
  pc t <> NotStarted -> (finished t = true -> pc t = Done) ->
  pc (emit_timer t) <> NotStarted /\
  (finished (emit_timer t) = true -> pc (emit_timer t) = Done).
Proof.
  unfold emit_timer. intros Hp Hf.
  destruct (pc t) eqn:Hpc; rewrite ?Hpc; try done.
Qed.

(** Two labels do not share a timer. *)
Lemma current_timers_inj w l l' r :
  current_timers w -> timers w !! l = Some r -> timers w !! l' = Some r -> l = l'.
Proof.
  intros H H1 H2.
  destruct (H _ _ H1) as (t & st & Ht & Ha & _).
  destruct (H _ _ H2) as (t' & st' & Ht' & Ha' & _).
  congruence.
Qed.

(** The store after [cancel()] on the timer of [l0], read at the timer of
    another label. *)
Lemma cancel_of_other w l0 l r :
  current_timers w -> l <> l0 -> timers w !! l = Some r ->
  cancel_of (timers w) l0 (timer_store w) !! r = timer_store w !! r.
Proof.
  intros H Hne Hl. rewrite cancel_of_alter.
  destruct (timers w !! l0) as [r0|] eqn:Hr0; [|done].
  apply list_lookup_alter_ne. intros ->.
  apply Hne. by apply (current_timers_inj w l l0 r).
Qed.

Lemma step_current_timers w e : current_timers w -> current_timers (step w e).
Proof.
  intros H l r. rewrite timers_step, active_step, store_step.
  assert (Hfresh : forall (ts : list Timer) l1 c,
            length ts = length (timer_store w) ->
            exists t st, (ts ++ [fresh_timer l1 c]) !! length (timer_store w) = Some t /\
              args t = (l1, st) /\ <[l1 := c]> (active w) !! l1 = Some st /\
              pc t <> NotStarted /\ (finished t = true -> pc t = Done)).
  { intros ts l1 c Hlen. exists (fresh_timer l1 c), c.
    rewrite <- Hlen, store_lookup_fresh, lookup_insert_eq. done. }
  assert (Henv : forall f,
            (forall t, args (f t) = args t) ->
            (forall t, pc t <> NotStarted -> (finished t = true -> pc t = Done) ->
               pc (f t) <> NotStarted /\ (finished (f t) = true -> pc (f t) = Done)) ->
            forall i, timers w !! l = Some r ->
            exists t st, alter f i (timer_store w) !! r = Some t /\ args t = (l, st) /\
              active w !! l = Some st /\
              pc t <> NotStarted /\ (finished t = true -> pc t = Done)).
  { intros f Hargs Hok i Hl.
    destruct (H _ _ Hl) as (t & st & Ht & Ha & Hact & Hp & Hf).
    rewrite list_lookup_alter. case_decide; subst.
    - rewrite Ht. simpl. exists (f t), st. rewrite Hargs.
      destruct (Hok t Hp Hf). done.
    - exists t, st. done. }
  destruct e as [[l0|l0|l0|ls]|t1|tid|tid|tid]; try apply H.
  - destruct (active w !! l0) eqn:Ha0; [apply H|].
    destruct (decide (l0 = l)) as [->|Hne].
    + rewrite lookup_insert_eq. intros [= <-]. by apply Hfresh.
    + rewrite !lookup_insert_ne by done. intros Hl.
      destruct (H _ _ Hl) as (t & st & Ht & Hrest). exists t, st.
      rewrite lookup_app_l by by eapply lookup_lt_Some. done.
  - destruct (active w !! l0) eqn:Ha0.
    + destruct (decide (l0 = l)) as [->|Hne]; [by rewrite lookup_delete_eq|].
      rewrite !lookup_delete_ne by done. intros Hl.
      rewrite (cancel_of_other w l0 l r) by done. by apply H.
    + intros Hl. destruct (H _ _ Hl) as (t & st & Ht & Ha & Hact & Hrest).
      exists t, st. rewrite lookup_delete_ne by congruence. done.
  - destruct (active w !! l0) eqn:Ha0; [|apply H].
    destruct (decide (l0 = l)) as [->|Hne].
    + rewrite lookup_insert_eq. intros [= <-].
      apply Hfresh, cancel_of_length.
    + rewrite !lookup_insert_ne by done. intros Hl.
      destruct (H _ _ Hl) as (t & st & Ht & Hrest). exists t, st.
      rewrite lookup_app_l
        by (rewrite cancel_of_length; by eapply lookup_lt_Some).
      rewrite (cancel_of_other w l0 l r) by done. done.
  - apply Henv; [apply wake_timer_args|apply wake_timer_ok].
  - apply Henv; [apply guard_timer_args|apply guard_timer_ok].
  - apply Henv; [apply emit_timer_args|apply emit_timer_ok].
Qed.

Lemma boot_current_timers t0 : current_timers (boot t0).
Proof. intros l r. unfold timers, boot, init; simpl. by rewrite lookup_empty. Qed.

Lemma run_current_timers evs w : current_timers w -> current_timers (run evs w).
Proof.
  revert w. induction evs as [|e evs IH]; intros w H; [done|].
  rewrite run_cons. by apply IH, step_current_timers.
Qed.

Lemma wake_timer_pending t : finished (wake_timer t) = false -> finished t = false.
Proof. unfold wake_timer. destruct (pc t); try done. by destruct (finished t). Qed.

Lemma guard_timer_pending a t : finished (guard_timer a t) = false -> finished t = false.
Proof. unfold guard_timer. destruct (pc t); try done. by destruct (bool_decide _). Qed.

Lemma emit_timer_pending t : finished (emit_timer t) = false -> finished t = false.
Proof. unfold emit_timer. by destruct (pc t). Qed.

(** The store after [cancel()] on the timer of [l0]: a timer that is still
    pending is not the one of [l0]. *)
Lemma cancel_of_pending w l0 r t' :
  pending_are_current w ->
  cancel_of (timers w) l0 (timer_store w) !! r = Some t' -> finished t' = false ->
  timer_store w !! r = Some t' /\ (args t').1 <> l0.
Proof.
  intros Hp. rewrite cancel_of_alter.
  destruct (timers w !! l0) as [r0|] eqn:Hr0.
  - rewrite list_lookup_alter. case_decide as Hd; [subst r0|].
    + destruct (timer_store w !! r) as [t|]; [|done]. simpl.
      intros [= <-]. done.
    + intros Ht Hf. split; [done|]. intros Hl.
      apply (Hp _ _ Ht) in Hf. rewrite Hl in Hf. congruence.
  - intros Ht Hf. split; [done|]. intros Hl.
    apply (Hp _ _ Ht) in Hf. rewrite Hl in Hf. congruence.
Qed.

Lemma step_pending_are_current w e :
  current_timers w -> pending_are_current w -> pending_are_current (step w e).
Proof.
  intros Hc Hp r t'. rewrite timers_step, store_step.
  assert (Henv : forall f i,
            (forall t, args (f t) = args t) ->
            (forall t, finished (f t) = false -> finished t = false) ->
            alter f i (timer_store w) !! r = Some t' -> finished t' = false ->
            timers w !! (args t').1 = Some r).
  { intros f i Hargs Hfin. rewrite list_lookup_alter. case_decide; subst.
    - destruct (timer_store w !! r) as [t|] eqn:Ht; [|done]. simpl.
      intros [= <-] Hf. rewrite Hargs. apply (Hp _ _ Ht). by apply Hfin.
    - apply Hp. }
  destruct e as [[l0|l0|l0|ls]|t1|tid|tid|tid]; try apply Hp.
  - destruct (active w !! l0) eqn:Ha0; [apply Hp|].
    intros Ht Hf. apply lookup_app_Some in Ht as [Ht|[Hge Ht]].
    + pose proof (Hp _ _ Ht Hf) as Hr.
      rewrite lookup_insert_ne; [done|]. intros Hl. rewrite <- Hl in Hr.
      destruct (Hc _ _ Hr) as (? & ? & _ & _ & Hact & _). congruence.
    + destruct (r - length (timer_store w))%nat as [|n] eqn:Hn; simpl in Ht; [|done].
      injection Ht as <-. simpl. rewrite lookup_insert_eq. f_equal. lia.
  - destruct (active w !! l0) eqn:Ha0; [|apply Hp].
    intros Ht Hf. destruct (cancel_of_pending w l0 r t' Hp Ht Hf) as [Ht' Hne].
    rewrite lookup_delete_ne by done. by apply Hp.
  - destruct (active w !! l0) eqn:Ha0; [|apply Hp].
    intros Ht Hf. apply lookup_app_Some in Ht as [Ht|[Hge Ht]].
    + destruct (cancel_of_pending w l0 r t' Hp Ht Hf) as [Ht' Hne].
      rewrite lookup_insert_ne by done. by apply Hp.
    + rewrite cancel_of_length in Hge, Ht.
      destruct (r - length (timer_store w))%nat as [|n] eqn:Hn; simpl in Ht; [|done].
      injection Ht as <-. simpl. rewrite lookup_insert_eq. f_equal. lia.
  - apply Henv; [apply wake_timer_args|apply wake_timer_pending].
  - apply Henv; [apply guard_timer_args|apply guard_timer_pending].
  - apply Henv; [apply emit_timer_args|apply emit_timer_pending].
Qed.

Lemma run_pending_are_current evs w :
  current_timers w -> pending_are_current w -> pending_are_current (run evs w).
Proof.
  revert w. induction evs as [|e evs IH]; intros w Hc Hp; [done|].
  rewrite run_cons. apply IH; [by apply step_current_timers|].
  by apply step_pending_are_current.
Qed.

Lemma boot_pending_are_current t0 : pending_are_current (boot t0).
Proof. intros r t. by destruct r. Qed.

(** X14. In every world that a history reaches from a new tracker, an active
    label has a timer in [_timers], and this timer was created for that
    label and for its current start time: it is the timer of the current
    incarnation. *)
Theorem active_segment_has_its_timer (t0 : Z) (evs : list event) (l : string) (st : Z) :
  let w := run evs (boot t0) in
  active w !! l = Some st ->
  exists r t, timers w !! l = Some r /\ timer_store w !! r = Some t /\
    args t = (l, st).
Proof.
  intros w Ha.
  pose proof (run_agree evs (boot t0) (boot_agree t0) l) as Hag. fold w in Hag.
  destruct Hag as [_ [r Hr]]; [eauto|].
  pose proof (run_current_timers evs (boot t0) (boot_current_timers t0) l r Hr)
    as (t & st' & Ht & Hargs & Hact & _).
  fold w in Hact, Ht. exists r, t.
  split; [done|]. split; [done|]. congruence.
Qed.

(** X15. A timer that is still pending, neither cancelled nor run, is never
    a stale one: in every world that a history reaches, it is the timer that
    [_timers] holds for its label, and the label is active with the start
    time given to the timer. [stop] and [reset] leave no live timer
    behind. *)
Theorem pending_timer_is_current (t0 : Z) (evs : list event) (r : nat) (t : Timer) :
  let w := run evs (boot t0) in
  timer_store w !! r = Some t -> finished t = false ->
  timers w !! (args t).1 = Some r /\ active w !! (args t).1 = Some (args t).2.
Proof.
  intros w Ht Hf.
  assert (Hr : timers w !! (args t).1 = Some r).
  { exact (run_pending_are_current evs (boot t0) (boot_current_timers t0)
             (boot_pending_are_current t0) r t Ht Hf). }
  split; [done|].
  pose proof (run_current_timers evs (boot t0) (boot_current_timers t0) _ r Hr)
    as (t' & st' & Ht' & Hargs & Hact & _).
  fold w in Ht', Hact. rewrite Ht in Ht'. injection Ht' as <-.
  rewrite Hargs. simpl. by rewrite Hargs in Hact.
Qed.

(** X16. The warning is not lost. In a world that a history has reached,
    take the timer that [_timers] holds for a label, its thread still
    waiting: when the thread wakes, evaluates the guard and warns with no
    call in between, exactly one warning is made, by that thread, with the
    over-limit message of the label. *)
Theorem overdue_segment_is_warned (t0 : Z) (evs : list event) (l : string)
    (r : nat) (t : Timer) :
  let w := run evs (boot t0) in
  timers w !! l = Some r -> timer_store w !! r = Some t -> pc t = Waiting ->
  warnings_log (run [Wake r; Guard r; Emit r] w) =
  warnings_log w ++ [mkWarning (TimerThread r) (over_limit_message l)].
Proof.
  intros w Hr Ht Hpc.
  pose proof (run_current_timers evs (boot t0) (boot_current_timers t0) l r Hr)
    as (t' & st & Ht' & Hargs & Hact & _ & Hfin).
  fold w in Ht', Hact. rewrite Ht in Ht'. injection Ht' as <-.
  assert (Hf : finished t = false).
  { destruct (finished t); [|done]. rewrite Hpc in Hfin. by discriminate Hfin. }
  rewrite <- (Timer_run_steps w r t Ht Hpc).
  unfold Timer_run; simpl. rewrite Ht, Hpc, Hf. unfold bind.
  assert (Hact' : active (as_thread (TimerThread r) w) !! l = Some st)
    by exact Hact.
  rewrite warn_if_over_limit_eq, Hargs. cbn [fst snd].
  rewrite (bool_decide_eq_true_2 _ Hact').
  unfold warnings_warn, set_pc; simpl. by rewrite update_timer_eq.
Qed.

(** X17. [stop] and [reset] of an active label cancel the timer that
    [_timers] holds for the label and touch no other timer object; [reset]
    then adds the new timer at the end of the store. *)
Theorem only_own_timer_is_cancelled (w : World) (l : string) (st : Z)
    (r : nat) (t : Timer) :
  active w !! l = Some st -> timers w !! l = Some r ->
  timer_store w !! r = Some t ->
  (timer_store (world_of (stop l w)) !! r = Some (cancel_timer t) /\
   forall r', r' <> r ->
     timer_store (world_of (stop l w)) !! r' = timer_store w !! r') /\
  (timer_store (world_of (reset l w)) !! r = Some (cancel_timer t) /\
   timer_store (world_of (reset l w)) !! length (timer_store w) =
     Some (fresh_timer l (clock w)) /\
   forall r', r' <> r -> r' <> length (timer_store w) ->
     timer_store (world_of (reset l w)) !! r' = timer_store w !! r').
Proof.
  intros Ha Hr Ht.
  assert (Hlt : (r < length (timer_store w))%nat) by by eapply lookup_lt_Some.
  assert (Hc : cancel_of (timers w) l (timer_store w) =
               alter cancel_timer r (timer_store w))
    by by rewrite cancel_of_alter, Hr.
  rewrite (stop_active _ _ _ Ha), (reset_active _ _ _ Ha).
  unfold stopped, restamped, stamped; simpl. rewrite Hc.
  split; [split|split; [|split]].
  - by rewrite list_lookup_alter_eq, Ht.
  - intros r' Hne. by apply list_lookup_alter_ne.
  - rewrite lookup_app_l by by rewrite length_alter.
    by rewrite list_lookup_alter_eq, Ht.
  - rewrite <- (length_alter cancel_timer (timer_store w) r).
    apply store_lookup_fresh.
  - intros r' Hne Hlen.
    destruct (decide (r' < length (timer_store w))%nat) as [Hl|Hl].
    + rewrite lookup_app_l by by rewrite length_alter.
      by apply list_lookup_alter_ne.
    + rewrite (lookup_ge_None_2 (timer_store w)) by lia.
      apply lookup_ge_None_2. rewrite length_app, length_alter. simpl. lia.
Qed.

(** X18. [reset] of an active label leaves the same active segments, the
    same timers and the same timer objects as [stop] followed by [start]
    would; what differs is that [reset] records no duration, while
    [stop] appends the record of the interrupted segment. *)
Theorem reset_is_stop_start_without_record (w : World) (l : string) (st : Z) :
  active w !! l = Some st ->
  let w1 := world_of (reset l w) in
  let w2 := world_of (start l (world_of (stop l w))) in
  active w1 = active w2 /\ timers w1 = timers w2 /\
  timer_store w1 = timer_store w2 /\
  completed w1 = completed w /\
  completed w2 = completed w ++ [(l, clock w - st)].
Proof.
  intros Ha w1 w2. subst w1 w2.
  rewrite (reset_active _ _ _ Ha), (stop_active _ _ _ Ha). simpl world_of.
  rewrite start_inactive
    by (unfold stopped, active; simpl; apply lookup_delete_eq).
  unfold restamped, stamped, stopped, active, timers, completed; simpl.
  rewrite !insert_delete_eq, cancel_of_length. done.
Qed.

(** ** The further properties at concrete histories *)

Lemma other_labels_are_untouched_witness :
  let w := run [Tick 2; Call (Start "fit"); Call (Start "predict")] (boot 0) in
  "fit"%string <> "predict"%string /\
  active (world_of (stop "fit" w)) !! "predict"%string = active w !! "predict"%string /\
  timers (world_of (reset "fit" w)) !! "predict"%string = timers w !! "predict"%string.
Proof.
  intros w.
  assert (H : "fit"%string <> "predict"%string) by discriminate.
  destruct (other_labels_are_untouched w "fit" "predict" H)
    as (_ & (Hs & _) & (_ & Hr)).
  split; [exact H|]. split; [exact Hs|exact Hr].
Defined.

Lemma start_stop_round_trip_witness :
  let evs := [Tick 2; Call (Start "fit")] in
  let w := run evs (boot 0) in
  let w2 := run [Call (Start "predict"); Tick 9; Call (Stop "predict")] w in
  active w !! "predict"%string = None /\
  active w2 = active w /\ timers w2 = timers w /\
  completed w2 = completed w ++ [("predict"%string, 9 - clock w)].
Proof.
  intros evs w w2.
  assert (H : active w !! "predict"%string = None) by (vm_compute; reflexivity).
  split; [exact H|]. exact (start_stop_round_trip 0 evs "predict" 9 H).
Defined.

Lemma stop_measures_from_start_witness :
  let w := run [Tick 2] (boot 0) in
  let evs := [Tick 5; Call (Start "predict"); Tick 8; Call (Stop "predict"); Tick 11] in
  let w2 := run evs (world_of (start "fit" w)) in
  active w !! "fit"%string = None /\
  (Call (Stop "fit") ∉ evs) /\ (Call (Reset "fit") ∉ evs) /\
  exists w3, stop "fit" w2 = Returns () w3 /\
    completed w3 = completed w2 ++ [("fit"%string, clock w2 - clock w)].
Proof.
  intros w evs w2.
  assert (H1 : active w !! "fit"%string = None) by (vm_compute; reflexivity).
  assert (H2 : Call (Stop "fit") ∉ evs) by by_evaluation.
  assert (H3 : Call (Reset "fit") ∉ evs) by by_evaluation.
  split; [exact H1|]. split; [exact H2|]. split; [exact H3|].
  exact (stop_measures_from_start w "fit" evs H1 H2 H3).
Defined.

Lemma stop_adds_one_summand_witness :
  let w := run [Tick 2; Call (Start "fit"); Tick 7] (boot 0) in
  let w' := world_of (stop "fit" w) in
  active w !! "fit"%string = Some 2 /\
  summands (Some ["fit"%string]) (completed w') =
    summands (Some ["fit"%string]) (completed w) ++
    (if selects (Some ["fit"%string]) "fit" then [clock w - 2] else []) /\
  (selects (Some ["predict"%string]) "fit" = false /\
   value_of (total_time (Some ["predict"%string]) w') =
   value_of (total_time (Some ["predict"%string]) w)).
Proof.
  intros w w'.
  assert (H : active w !! "fit"%string = Some 2) by (vm_compute; reflexivity).
  assert (Hsel : selects (Some ["predict"%string]) "fit" = false)
    by (vm_compute; reflexivity).
  split; [exact H|].
  split; [exact (proj1 (proj2 (proj2
            (stop_adds_one_summand w "fit" 2 (Some ["fit"%string]) H))))|].
  split; [exact Hsel|].
  exact (proj2 (proj2 (proj2
           (stop_adds_one_summand w "fit" 2 (Some ["predict"%string]) H))) Hsel).
Defined.

Lemma total_time_reads_labels_as_a_set_witness :
  let w := run [Tick 2; Call (Start "a"); Tick 5; Call (Stop "a")] (boot 0) in
  let ls := ["a"; "b"; "a"]%string in
  let ls' := ["b"; "a"]%string in
  (forall x, x ∈ ls <-> x ∈ ls') /\
  total_time (Some ls) w = total_time (Some ls') w.
Proof.
  intros w ls ls'.
  assert (H : forall x, x ∈ ls <-> x ∈ ls').
  { intros x. unfold ls, ls'. rewrite !elem_of_cons, !elem_of_nil. tauto. }
  split; [exact H|].
  exact (proj2 total_time_reads_labels_as_a_set w ls ls' H).
Defined.

Lemma total_time_with_every_label_witness :
  let w := run [Tick 2; Call (Start "a"); Tick 5; Call (Stop "a");
                Call (Start "b"); Tick 9; Call (Stop "b")] (boot 0) in
  (forall r, r ∈ completed w -> r.1 ∈ ["b"; "a"]%string) /\
  total_time (Some ["b"; "a"]%string) w = total_time None w.
Proof.
  intros w.
  assert (H : forall r, r ∈ completed w -> r.1 ∈ ["b"; "a"]%string).
  { apply Forall_forall. by_evaluation. }
  split; [exact H|exact (proj2 (total_time_with_every_label w _ H))].
Defined.

Lemma durations_are_nonnegative_witness :
  let evs := [Tick 1; Call (Start "fit"); Tick 4; Call (Stop "fit")] in
  let w := run evs (boot 0) in
  clock_monotone 0 evs /\
  Forall (fun r => 0 <= r.2) (completed w) /\
  (forall labels, exists v, total_time labels w = Returns v w /\ 0 <= v).
Proof.
  intros evs w.
  assert (H : clock_monotone 0 evs) by (simpl; lia).
  split; [exact H|exact (durations_are_nonnegative 0 evs H)].
Defined.

Lemma timers_are_started_daemons_witness :
  let evs := [Tick 1; Call (Start "fit"); Wake 0; Call (Reset "fit")] in
  let t := mkTimer TIME_WARNING_CPU ("fit"%string, 1) true true Checked in
  timer_store (run evs (boot 0)) !! 0%nat = Some t /\
  daemon t = true /\ interval t = TIME_WARNING_CPU /\ pc t <> NotStarted.
Proof.
  intros evs t.
  assert (H : timer_store (run evs (boot 0)) !! 0%nat = Some t)
    by (vm_compute; reflexivity).
  split; [exact H|exact (timers_are_started_daemons 0 evs 0%nat t H)].
Defined.

Lemma timer_objects_are_stable_witness :
  let w := run [Tick 1; Call (Start "fit")] (boot 0) in
  let evs := [Tick 3; Call (Stop "fit"); Call (Start "fit"); Wake 0] in
  timer_store w !! 0%nat = Some (fresh_timer "fit" 1) /\
  exists t', timer_store (run evs w) !! 0%nat = Some t' /\
    same_timer (fresh_timer "fit" 1) t'.
Proof.
  intros w evs.
  assert (H : timer_store w !! 0%nat = Some (fresh_timer "fit" 1))
    by (vm_compute; reflexivity).
  split; [exact H|exact (timer_objects_are_stable evs w 0%nat _ H)].
Defined.

Lemma active_segment_has_its_timer_witness :
  let evs := [Tick 1; Call (Start "fit"); Tick 3; Call (Reset "fit")] in
  let w := run evs (boot 0) in
  active w !! "fit"%string = Some 3 /\
  exists r t, timers w !! "fit"%string = Some r /\ timer_store w !! r = Some t /\
    args t = ("fit"%string, 3).
Proof.
  intros evs w.
  assert (H : active w !! "fit"%string = Some 3) by (vm_compute; reflexivity).
  split; [exact H|exact (active_segment_has_its_timer 0 evs "fit" 3 H)].
Defined.

Lemma pending_timer_is_current_witness :
  let evs := [Tick 1; Call (Start "fit"); Tick 3; Call (Reset "fit")] in
  let w := run evs (boot 0) in
  let t := fresh_timer "fit" 3 in
  timer_store w !! 1%nat = Some t /\ finished t = false /\
  timers w !! (args t).1 = Some 1%nat /\ active w !! (args t).1 = Some (args t).2.
Proof.
  intros evs w t.
  assert (H1 : timer_store w !! 1%nat = Some t) by (vm_compute; reflexivity).
  assert (H2 : finished t = false) by reflexivity.
  split; [exact H1|]. split; [exact H2|].
  exact (pending_timer_is_current 0 evs 1%nat t H1 H2).
Defined.

Lemma overdue_segment_is_warned_witness :
  let evs := [Tick 1; Call (Start "fit"); Tick 700] in
  let w := run evs (boot 0) in
  timers w !! "fit"%string = Some 0%nat /\
  timer_store w !! 0%nat = Some (fresh_timer "fit" 1) /\
  pc (fresh_timer "fit" 1) = Waiting /\
  warnings_log (run [Wake 0; Guard 0; Emit 0] w) =
  warnings_log w ++ [mkWarning (TimerThread 0) (over_limit_message "fit")].
Proof.
  intros evs w.
  assert (H1 : timers w !! "fit"%string = Some 0%nat) by (vm_compute; reflexivity).
  assert (H2 : timer_store w !! 0%nat = Some (fresh_timer "fit" 1))
    by (vm_compute; reflexivity).
  assert (H3 : pc (fresh_timer "fit" 1) = Waiting) by reflexivity.
  split; [exact H1|]. split; [exact H2|]. split; [exact H3|].
  exact (overdue_segment_is_warned 0 evs "fit" 0%nat _ H1 H2 H3).
Defined.

Lemma only_own_timer_is_cancelled_witness :
  let w := run [Tick 1; Call (Start "fit"); Call (Start "predict")] (boot 0) in
  active w !! "fit"%string = Some 1 /\
  timers w !! "fit"%string = Some 0%nat /\
  timer_store w !! 0%nat = Some (fresh_timer "fit" 1) /\
  timer_store (world_of (stop "fit" w)) !! 0%nat =
    Some (cancel_timer (fresh_timer "fit" 1)) /\
  timer_store (world_of (reset "fit" w)) !! 0%nat =
    Some (cancel_timer (fresh_timer "fit" 1)).
Proof.
  intros w.
  assert (H1 : active w !! "fit"%string = Some 1) by (vm_compute; reflexivity).
  assert (H2 : timers w !! "fit"%string = Some 0%nat) by (vm_compute; reflexivity).
  assert (H3 : timer_store w !! 0%nat = Some (fresh_timer "fit" 1))
    by (vm_compute; reflexivity).
  destruct (only_own_timer_is_cancelled w "fit" 1 0%nat _ H1 H2 H3)
    as ((Hs & _) & (Hr & _)).
  split; [exact H1|]. split; [exact H2|]. split; [exact H3|].
  split; [exact Hs|exact Hr].
Defined.

Lemma reset_is_stop_start_without_record_witness :
  let w := run [Tick 1; Call (Start "fit"); Tick 6] (boot 0) in
  let w1 := world_of (reset "fit" w) in
  let w2 := world_of (start "fit" (world_of (stop "fit" w))) in
  active w !! "fit"%string = Some 1 /\
  active w1 = active w2 /\ timers w1 = timers w2 /\
  timer_store w1 = timer_store w2 /\
  completed w1 = completed w /\
  completed w2 = completed w ++ [("fit"%string, clock w - 1)].
Proof.
  intros w w1 w2.
  assert (H : active w !! "fit"%string = Some 1) by (vm_compute; reflexivity).
  split; [exact H|exact (reset_is_stop_start_without_record w "fit" 1 H)].
Defined.
